(** * Verification of scripts/verify_mdi_codepoints.py

    Shallow embedding of the MDI codepoint verifier.  Python strings are
    modelled as lists of ASCII characters ([str]); the case mappings
    [str.lower] / [str.upper] and the whitespace class of [str.strip] and of
    the regular expression [\s] are the ASCII parts of Python's Unicode
    tables.  Python dicts are modelled as insertion-ordered association
    lists, since the reverse lookup [name_to_cp] depends on that order. *)

From Stdlib Require Import List Ascii Arith Lia Bool Sorted BinNums.
From Stdlib Require String Numbers.DecimalString.
Import ListNotations.
Import String.StringSyntax.

Definition str := list ascii.

(** String literals of the development. *)
Definition s (x : String.string) : str := String.list_ascii_of_string x.
Arguments s x%_string_scope.

(* ------------------------------------------------------------------ *)
(** ** Python string primitives *)

Definition ascii_eqb (a b : ascii) : bool := Ascii.eqb a b.

(** Characters for which [str.isspace] holds (and which [\s] matches):
    \t \n \v \f \r, the separators \x1c-\x1f, and the space. *)
Definition is_ws (c : ascii) : bool :=
  let n := nat_of_ascii c in
  ((9 <=? n) && (n <=? 13)) || ((28 <=? n) && (n <=? 32)).

Definition is_upper (c : ascii) : bool :=
  let n := nat_of_ascii c in (65 <=? n) && (n <=? 90).

Definition is_lower (c : ascii) : bool :=
  let n := nat_of_ascii c in (97 <=? n) && (n <=? 122).

Definition lower_char (c : ascii) : ascii :=
  if is_upper c then ascii_of_nat (nat_of_ascii c + 32) else c.

Definition upper_char (c : ascii) : ascii :=
  if is_lower c then ascii_of_nat (nat_of_ascii c - 32) else c.

(** [str.lower()] and [str.upper()]. *)
Definition lower (x : str) : str := map lower_char x.
Definition upper (x : str) : str := map upper_char x.

(** [str.lstrip()], [str.rstrip()], [str.strip()]. *)
Fixpoint lstrip (x : str) : str :=
  match x with
  | [] => []
  | c :: r => if is_ws c then lstrip r else x
  end.

Definition rstrip (x : str) : str := rev (lstrip (rev x)).

Definition strip (x : str) : str := rstrip (lstrip x).

(** [x.startswith(p)]. *)
Fixpoint startswith (x p : str) : bool :=
  match p, x with
  | [], _ => true
  | a :: p', b :: x' => ascii_eqb a b && startswith x' p'
  | _ :: _, [] => false
  end.

(** [p in x]. *)
Fixpoint contains (p x : str) : bool :=
  startswith x p ||
  match x with
  | [] => false
  | _ :: x' => contains p x'
  end.

(** [x.split(sep)[0]] for a non-empty separator: the part of [x] before
    the first occurrence of [sep], or [x] itself. *)
Fixpoint split_first (sep x : str) : str :=
  if startswith x sep then []
  else match x with
       | [] => []
       | c :: x' => c :: split_first sep x'
       end.

(** [x.replace(old, new)] for a non-empty [old]: non-overlapping
    occurrences, left to right.  [skip] counts the characters of an
    occurrence already replaced. *)
Fixpoint replace_aux (old new : str) (skip : nat) (x : str) : str :=
  match x with
  | [] => []
  | c :: x' =>
      match skip with
      | S k => replace_aux old new k x'
      | O => if startswith x old
             then new ++ replace_aux old new (pred (length old)) x'
             else c :: replace_aux old new 0 x'
      end
  end.

Definition replace (old new : str) (x : str) : str := replace_aux old new 0 x.

(** [str(n)] for a natural number. *)
Definition show_nat (n : nat) : str :=
  String.list_ascii_of_string (DecimalString.NilEmpty.string_of_uint (Nat.to_uint n)).

(* ------------------------------------------------------------------ *)
(** ** [extract_icon_name_from_comment] (lines 79-89) *)

Definition extract_icon_name_from_comment (comment : str) : str :=
  let name := strip (split_first (s "(") comment) in
  let name := strip (split_first (s " - ") name) in
  strip (lower name).

(** The normalizer in the words of the specification (section 4.4): the
    part before the first parenthesis, then the part of that before the
    first " - ", lowercased and trimmed.  Compared with the source above. *)
Definition spec_extract_icon_name (comment : str) : str :=
  strip (lower (split_first (s " - ") (split_first (s "(") comment))).

(* ------------------------------------------------------------------ *)
(** ** Python dicts as insertion-ordered association lists *)

(** [a == b] on strings. *)
Fixpoint str_eqb (a b : str) : bool :=
  match a, b with
  | [], [] => true
  | x :: a', y :: b' => ascii_eqb x y && str_eqb a' b'
  | _, _ => false
  end.

(** [d[k] = v]: an existing key keeps its position, a new one is appended. *)
Fixpoint dict_set {V} (d : list (str * V)) (k : str) (v : V) : list (str * V) :=
  match d with
  | [] => [(k, v)]
  | (k', v') :: d' =>
      if str_eqb k k' then (k', v) :: d' else (k', v') :: dict_set d' k v
  end.

(** [d.get(k)] / [k in d]. *)
Fixpoint dict_get {V} (d : list (str * V)) (k : str) : option V :=
  match d with
  | [] => None
  | (k', v') :: d' => if str_eqb k k' then Some v' else dict_get d' k
  end.

(* ------------------------------------------------------------------ *)
(** ** Icon records and [build_codepoint_lookup] (lines 45-53) *)

(** One object of the metadata JSON array; an absent field is [None]. *)
Record IconRecord := mkIcon { codepoint : option str; name : option str }.

(** [icon.get(field, '')]. *)
Definition get_or_empty (f : option str) : str :=
  match f with Some v => v | None => [] end.

(** Truthiness of a Python string. *)
Definition truthy (x : str) : bool := negb (Nat.eqb (List.length x) 0).

Definition lookup_step (lookup : list (str * str)) (icon : IconRecord)
  : list (str * str) :=
  let cp := upper (get_or_empty (codepoint icon)) in
  let nm := get_or_empty (name icon) in
  if truthy cp && truthy nm then dict_set lookup cp nm else lookup.

Definition build_codepoint_lookup (mdi_data : list IconRecord) : list (str * str) :=
  fold_left lookup_step mdi_data [].

(** A record that [build_codepoint_lookup] keeps: both fields present and
    non-empty. *)
Definition retained (icon : IconRecord) : bool :=
  truthy (get_or_empty (codepoint icon)) && truthy (get_or_empty (name icon)).

(** [{v: k for k, v in cp_to_name.items()}] (line 105). *)
Definition reverse_lookup (cp_to_name : list (str * str)) : list (str * str) :=
  fold_left (fun d kv => dict_set d (snd kv) (fst kv)) cp_to_name [].

(* ------------------------------------------------------------------ *)
(** ** Decoded JSON values and [build_codepoint_lookup] on them

    [json.load] may return any JSON value, not only an array of objects
    with string fields.  A dict is the list of its items (distinct keys, in
    insertion order); a number keeps what the script can observe of it. *)

Set Warnings "-register-all".

Inductive json :=
| JNull
| JBool (b : bool)
| JInt (z : Z)
| JFloat (m e : Z)                 (* the float m * 10^e *)
| JStr (x : str)
| JArr (items : list json)
| JObj (fields : list (str * json)).

(** [type(v).__name__]. *)
Definition type_name (v : json) : str :=
  match v with
  | JNull => s "NoneType"
  | JBool _ => s "bool"
  | JInt _ => s "int"
  | JFloat _ _ => s "float"
  | JStr _ => s "str"
  | JArr _ => s "list"
  | JObj _ => s "dict"
  end.

(** [len(data)] (line 38); [None] when it raises [TypeError]. *)
Definition json_len (v : json) : option nat :=
  match v with
  | JStr x => Some (List.length x)
  | JArr items => Some (List.length items)
  | JObj fields => Some (List.length fields)
  | _ => None
  end.

(** The message of that [TypeError]. *)
Definition len_error (v : json) : str :=
  s "object of type '" ++ type_name v ++ s "' has no len()".

(** [for icon in mdi_data] (line 48) on a value that has a length: the
    items of a list, the keys of a dict, the characters of a string. *)
Definition json_iter (v : json) : list json :=
  match v with
  | JArr items => items
  | JObj fields => map (fun kv => JStr (fst kv)) fields
  | JStr x => map (fun c => JStr [c]) x
  | _ => []
  end.

(** Truthiness of a decoded value. *)
Definition json_truthy (v : json) : bool :=
  match v with
  | JNull => false
  | JBool b => b
  | JInt z => match z with Z0 => false | _ => true end
  | JFloat m _ => match m with Z0 => false | _ => true end
  | JStr x => truthy x
  | JArr items => negb (Nat.eqb (List.length items) 0)
  | JObj fields => negb (Nat.eqb (List.length fields) 0)
  end.

(** [icon.get(field, '')] on a dict. *)
Definition json_get_or_empty (fields : list (str * json)) (field : str) : json :=
  match dict_get fields field with Some v => v | None => JStr [] end.

(** Lines 49-52 for one decoded element; [None] when line 49 raises
    [AttributeError]: [icon.get] on an element that is not a dict, or
    [.upper()] on a codepoint that is not a string. *)
Definition lookup_step_json (lookup : list (str * json)) (icon : json)
  : option (list (str * json)) :=
  match icon with
  | JObj fields =>
      match json_get_or_empty fields (s "codepoint") with
      | JStr c =>
          let cp := upper c in
          let nm := json_get_or_empty fields (s "name") in
          Some (if truthy cp && json_truthy nm then dict_set lookup cp nm else lookup)
      | _ => None
      end
  | _ => None
  end.

Fixpoint build_lookup_json (lookup : list (str * json)) (icons : list json)
  : option (list (str * json)) :=
  match icons with
  | [] => Some lookup
  | icon :: icons' =>
      match lookup_step_json lookup icon with
      | Some lookup' => build_lookup_json lookup' icons'
      | None => None
      end
  end.

(** Whether a name can be a key of [name_to_cp] (line 105): lists and
    dicts are unhashable and raise [TypeError]. *)
Definition hashable (v : json) : bool :=
  match v with JArr _ | JObj _ => false | _ => true end.

(** The items of the lookup whose name is a string.  Only these can be
    found by the string keys the loop and the report use: a string is never
    equal to a value of another type. *)
Definition str_values (lookup : list (str * json)) : list (str * str) :=
  flat_map (fun kv => match snd kv with JStr a => [(fst kv, a)] | _ => [] end)
           lookup.




(* ------------------------------------------------------------------ *)
(** ** Declaration entries and the verification loop (lines 113-151) *)

Record Entry := mkEntry
  { e_line : nat; e_codepoint : str; e_comment : str; e_raw : str }.

(** The dicts appended to [errors]. *)
Inductive VError :=
| Invalid (line : nat) (cp : str) (comment : str) (message : str)
| Mismatch (line : nat) (cp : str) (claimed : str) (actual : str) (comment : str).

(** The outcome of one iteration of the loop for one entry. *)
Inductive Verdict := VOk | VErr (e : VError).

Definition classify (cp_to_name : list (str * str)) (entry : Entry) : Verdict :=
  let cp := e_codepoint entry in
  let comment := e_comment entry in
  let claimed_name := extract_icon_name_from_comment comment in
  match dict_get cp_to_name cp with
  | None =>
      VErr (Invalid (e_line entry) cp comment
              (s "Codepoint " ++ cp ++ s " does not exist in MDI!"))
  | Some actual_name =>
      let claimed_normalized :=
        replace (s " ") (s "-") (replace (s "_") (s "-") claimed_name) in
      if str_eqb claimed_normalized actual_name then VOk
      else if startswith actual_name claimed_normalized
              || contains claimed_normalized actual_name then VOk
      else VErr (Mismatch (e_line entry) cp claimed_name actual_name comment)
  end.

Definition is_ok (v : Verdict) : bool :=
  match v with VOk => true | VErr _ => false end.

(** Lines 138-140 for an entry whose codepoint has a name that is not a
    string: [==] is false, and [actual_name.startswith] raises
    [AttributeError]. *)
Definition entry_raises (lookup : list (str * json)) (entry : Entry) : bool :=
  match dict_get lookup (e_codepoint entry) with
  | None | Some (JStr _) => false
  | Some _ => true
  end.

Definition error_of (v : Verdict) : list VError :=
  match v with VOk => [] | VErr e => [e] end.

(** The name the classifier compares, line 136. *)
Definition claimed_normalized (entry : Entry) : str :=
  replace (s " ") (s "-")
    (replace (s "_") (s "-") (extract_icon_name_from_comment (e_comment entry))).

(** Loop state: [ok_count] and [errors]. *)
Record LoopState := mkLoop { ok_count : nat; errors : list VError }.

Definition loop_body (cp_to_name : list (str * str)) (st : LoopState) (entry : Entry)
  : LoopState :=
  match classify cp_to_name entry with
  | VOk => mkLoop (S (ok_count st)) (errors st)
  | VErr e => mkLoop (ok_count st) (errors st ++ [e])
  end.

Definition verify_entries (cp_to_name : list (str * str)) (entries : list Entry)
  : LoopState :=
  fold_left (loop_body cp_to_name) entries (mkLoop 0 []).

(** The loop as a small-step relation on (pending entries, loop state). *)
Inductive loop_step (cp_to_name : list (str * str))
  : list Entry * LoopState -> list Entry * LoopState -> Prop :=
| LStep : forall e rest st,
    loop_step cp_to_name (e :: rest, st) (rest, loop_body cp_to_name st e).

Inductive loop_star (cp_to_name : list (str * str))
  : list Entry * LoopState -> list Entry * LoopState -> Prop :=
| LRefl : forall c, loop_star cp_to_name c c
| LTrans : forall c1 c2 c3,
    loop_step cp_to_name c1 c2 -> loop_star cp_to_name c2 c3 ->
    loop_star cp_to_name c1 c3.

(* ------------------------------------------------------------------ *)
(** ** The regular expression of [parse_regen_script] (line 61)

    [re.compile(r'MDI_ICONS\+?=.*"?,?(0x[A-Fa-f0-9]+)"?\s*#\s*(.+)')]
    uses only single-character atoms with greedy quantifiers and two
    non-nested groups.  Such a pattern is a list of items; a quantified
    atom is matched as [sre] does it: take the longest run of matching
    characters allowed, then give characters back one at a time. *)

Inductive CharClass :=
| CChar (c : ascii)   (* a literal character *)
| CAny                (* [.]: any character but a newline *)
| CHex                (* [[A-Fa-f0-9]] *)
| CSpace.             (* [\s] *)

Definition is_hex (c : ascii) : bool :=
  let n := nat_of_ascii c in
  ((48 <=? n) && (n <=? 57)) || ((65 <=? n) && (n <=? 70))
  || ((97 <=? n) && (n <=? 102)).

Definition class_matches (k : CharClass) (c : ascii) : bool :=
  match k with
  | CChar a => ascii_eqb a c
  | CAny => negb (ascii_eqb c "010"%char)
  | CHex => is_hex c
  | CSpace => is_ws c
  end.

Inductive Item :=
| Atom (k : CharClass) (lo : nat) (hi : option nat)  (* k{lo,hi}, greedy *)
| GOpen                                             (* ( *)
| GClose (g : nat).                                 (* ) closing group g *)

(** Length of the longest prefix of [x] in class [k]. *)
Fixpoint run_length (k : CharClass) (x : str) : nat :=
  match x with
  | [] => 0
  | c :: x' => if class_matches k c then S (run_length k x') else 0
  end.

Definition cap (hi : option nat) (n : nat) : nat :=
  match hi with Some h => Nat.min h n | None => n end.

(** Try the repetition counts [j], [j-1], ..., [lo] in that order. *)
Fixpoint try_counts {A} (f : nat -> option A) (lo j : nat) : option A :=
  if j <? lo then None
  else match f j with
       | Some r => Some r
       | None => match j with 0 => None | S j' => try_counts f lo j' end
       end.

(** Captured groups, in closing order: (group number, text). *)
Definition Captures := list (nat * str).

(** Anchored match of [items] at the start of [x].  [opened] is the rest
    of the subject where the current group opened. *)
Fixpoint match_items (items : list Item) (x opened : str) (caps : Captures)
  : option Captures :=
  match items with
  | [] => Some caps
  | Atom k lo hi :: rest =>
      try_counts (fun j => match_items rest (skipn j x) opened caps)
                 lo (cap hi (run_length k x))
  | GOpen :: rest => match_items rest x x caps
  | GClose g :: rest =>
      match_items rest x opened
        (caps ++ [(g, firstn (List.length opened - List.length x) opened)])
  end.

(** [pattern.search(x)]: the leftmost start position that matches. *)
Fixpoint search (items : list Item) (x : str) : option Captures :=
  match match_items items x [] [] with
  | Some c => Some c
  | None => match x with [] => None | _ :: x' => search items x' end
  end.

(** The double-quote character. *)
Definition dq : ascii := "034"%char.

Definition lit (c : ascii) : Item := Atom (CChar c) 1 (Some 1).
Definition opt (c : ascii) : Item := Atom (CChar c) 0 (Some 1).

(** [(.+)] after [#\s*], and what comes before it. *)
Definition comment_part : list Item :=
  [opt dq; Atom CSpace 0 None; lit "#"; Atom CSpace 0 None;
   GOpen; Atom CAny 1 None; GClose 2].

(** [(0x[A-Fa-f0-9]+)] and the comment part, after [.*]. *)
Definition codepoint_part : list Item :=
  [opt dq; opt ","; GOpen; lit "0"; lit "x"; Atom CHex 1 None; GClose 1]
  ++ comment_part.

Definition mdi_pattern : list Item :=
  map lit (s "MDI_ICONS") ++ [opt "+"; lit "="; Atom CAny 0 None] ++ codepoint_part.

(** [match.group(g)]. *)
Definition group (caps : Captures) (g : nat) : str :=
  match find (fun p => Nat.eqb (fst p) g) caps with
  | Some (_, t) => t
  | None => []
  end.

(* ------------------------------------------------------------------ *)
(** ** [parse_regen_script] (lines 56-76) *)

(** Reading in text mode with universal newlines: "\r\n" and "\r" become
    "\n". *)
Fixpoint translate_newlines (x : str) : str :=
  match x with
  | [] => []
  | "013"%char :: "010"%char :: x' => "010"%char :: translate_newlines x'
  | "013"%char :: x' => "010"%char :: translate_newlines x'
  | c :: x' => c :: translate_newlines x'
  end.

(** Iterating over a text file: lines keep their terminating "\n". *)
Fixpoint file_lines_aux (cur : str) (x : str) : list str :=
  match x with
  | [] => match cur with [] => [] | _ => [rev cur] end
  | c :: x' =>
      if ascii_eqb c "010"%char then rev (c :: cur) :: file_lines_aux [] x'
      else file_lines_aux (c :: cur) x'
  end.

Definition file_lines (content : str) : list str :=
  file_lines_aux [] (translate_newlines content).

(** The body of the loop for one line. *)
Definition parse_line (line_num : nat) (line : str) : list Entry :=
  match search mdi_pattern line with
  | Some caps =>
      let codepoint := replace (s "0X") [] (upper (group caps 1)) in
      let comment := strip (group caps 2) in
      [mkEntry line_num codepoint comment (strip line)]
  | None => []
  end.

Fixpoint parse_lines (line_num : nat) (lines : list str) : list Entry :=
  match lines with
  | [] => []
  | l :: ls => parse_line line_num l ++ parse_lines (S line_num) ls
  end.

Definition parse_regen_script (content : str) : list Entry :=
  parse_lines 1 (file_lines content).

(* ------------------------------------------------------------------ *)
(** ** [main] (lines 92-182) *)

(** The contents of the metadata cache file as [fetch_mdi_metadata] finds
    it: absent; unreadable by [gzip.open] or [json.load] (the message of
    the caught exception); decoded to a JSON array of objects whose
    "codepoint" and "name" are strings where present, written as records;
    or decoded to any JSON value.  [CacheDecoded (json_of_records data)]
    and [CacheLoaded data] are the same file, and [main] gives them the
    same outcome (lemma [Verifier.main_decoded_records]). *)
Inductive Cache :=
| CacheMissing
| CacheCorrupt (msg : str)
| CacheLoaded (data : list IconRecord)
| CacheDecoded (v : json).

(** What a run leaves behind: its standard output and its exit code. *)
Record Outcome := mkOutcome { stdout : str; exit_code : nat }.

Definition nl : ascii := "010"%char.

(** [print(x)]. *)
Definition print (x : str) : str := x ++ [nl].

Definition rule70 : str := repeat "="%char 70.

Section Main.

(** The two fixed paths: [script_dir / "regen_mdi_fonts.sh"] and
    [MDI_CACHE_FILE]. *)
Variable regen_script : str.
Variable mdi_cache_file : str.

(** The block printed for one error (lines 162-176). *)
Definition report_error (name_to_cp : list (str * str)) (err : VError) : str :=
  match err with
  | Invalid line cp comment _ =>
      print (s "  Line " ++ show_nat line ++ s ": INVALID CODEPOINT")
      ++ print (s "    Codepoint: 0x" ++ cp)
      ++ print (s "    Comment: " ++ comment)
      ++ print []
  | Mismatch line cp claimed actual _ =>
      print (s "  Line " ++ show_nat line ++ s ": NAME MISMATCH")
      ++ print (s "    Codepoint: 0x" ++ cp)
      ++ print (s "    Comment says: " ++ claimed)
      ++ print (s "    Actually is:  " ++ actual)
      ++ match dict_get name_to_cp (replace (s "_") (s "-") claimed) with
         | Some correct_cp =>
             print (s "    → '" ++ claimed ++ s "' is at 0x" ++ correct_cp)
         | None => []
         end
      ++ print []
  end.

(** Lines 154-180. *)
Definition report (name_to_cp : list (str * str)) (st : LoopState) : str :=
  print rule70 ++ print (s "VERIFICATION RESULTS") ++ print rule70
  ++ print ([nl] ++ s "✓ OK: " ++ show_nat (ok_count st)
            ++ s " icons verified correctly")
  ++ match errors st with
     | [] => print ([nl] ++ s "✓ All icon names match their codepoints!")
     | errs =>
         print ([nl] ++ s "✗ ERRORS: " ++ show_nat (List.length errs)
                ++ s " icons have issues:" ++ [nl])
         ++ concat (map (report_error name_to_cp) errs)
     end
  ++ print rule70.

(** The three early exits: lines 96-98, 29-32 and 40-42. *)
Definition exit_no_script : Outcome :=
  mkOutcome (print (s "ERROR: Cannot find " ++ regen_script)) 1.

Definition exit_no_cache : Outcome :=
  mkOutcome (print (s "ERROR: MDI metadata cache not found at " ++ mdi_cache_file)
             ++ print (s "   Run: make update-mdi-cache")) 2.

Definition exit_corrupt_cache (msg : str) : Outcome :=
  mkOutcome (print (s "Loading MDI metadata from cache...")
             ++ print (s "ERROR: Failed to load MDI metadata: " ++ msg)) 2.

(** An exception that nothing catches: the traceback goes to the standard
    error, and the interpreter exits with 1. *)
Definition crash (out : str) : Outcome := mkOutcome out 1.

(** Lines 35 and 38: what [fetch_mdi_metadata] prints for a decoded
    document of [count] items. *)
Definition loaded_banner (count : nat) : str :=
  print (s "Loading MDI metadata from cache...")
  ++ print (s "  Found " ++ show_nat count ++ s " icons in MDI library").

(** Lines 108 and 110. *)
Definition parsing_banner (entries : list Entry) : str :=
  print ([nl] ++ s "Parsing " ++ regen_script ++ s "...")
  ++ print (s "  Found " ++ show_nat (List.length entries)
            ++ s " icon entries" ++ [nl]).

(** Everything [main] prints once the metadata is loaded and the entries
    are parsed, given the state the verification loop ends in; the return
    value of line 182. *)
Definition finish_with (count : nat) (cp_to_name : list (str * str))
    (entries : list Entry) (st : LoopState) : Outcome :=
  let name_to_cp := reverse_lookup cp_to_name in
  mkOutcome (loaded_banner count ++ parsing_banner entries ++ report name_to_cp st)
            (match errors st with [] => 0 | _ => 1 end).

Definition finish (mdi_data : list IconRecord) (entries : list Entry)
    (st : LoopState) : Outcome :=
  finish_with (List.length mdi_data) (build_codepoint_lookup mdi_data) entries st.

(** Lines 38-105 and the loop on a decoded document [v]: [len] fails
    (caught, exit 2); line 49 raises; line 105 meets an unhashable name;
    an entry meets a name that is not a string (the loop prints nothing,
    so the first such entry ends the run with what was printed before the
    loop); or the run completes. *)
Definition main_decoded (content : str) (v : json) : Outcome :=
  match json_len v with
  | None => exit_corrupt_cache (len_error v)
  | Some count =>
      match build_lookup_json [] (json_iter v) with
      | None => crash (loaded_banner count)
      | Some lookup =>
          if forallb (fun kv => hashable (snd kv)) lookup then
            let entries := parse_regen_script content in
            if existsb (entry_raises lookup) entries
            then crash (loaded_banner count ++ parsing_banner entries)
            else finish_with count (str_values lookup) entries
                   (verify_entries (str_values lookup) entries)
          else crash (loaded_banner count)
      end
  end.

(** [main()] followed by [sys.exit(main())].  [regen] is the content of
    the declaration file, [None] when it does not exist. *)
Definition main (regen : option str) (cache : Cache) : Outcome :=
  match regen with
  | None => exit_no_script
  | Some content =>
      match cache with
      | CacheMissing => exit_no_cache
      | CacheCorrupt msg => exit_corrupt_cache msg
      | CacheLoaded mdi_data =>
          let cp_to_name := build_codepoint_lookup mdi_data in
          let entries := parse_regen_script content in
          finish mdi_data entries (verify_entries cp_to_name entries)
      | CacheDecoded v => main_decoded content v
      end
  end.

(** A run as a relation: the early exits and crashes, or the verification
    loop run by [loop_star] until no entry is pending. *)
Inductive run_exec : option str -> Cache -> Outcome -> Prop :=
| RunNoScript : forall cache, run_exec None cache exit_no_script
| RunNoCache : forall content, run_exec (Some content) CacheMissing exit_no_cache
| RunCorrupt : forall content msg,
    run_exec (Some content) (CacheCorrupt msg) (exit_corrupt_cache msg)
| RunLoaded : forall content mdi_data st,
    loop_star (build_codepoint_lookup mdi_data)
              (parse_regen_script content, mkLoop 0 []) ([], st) ->
    run_exec (Some content) (CacheLoaded mdi_data)
             (finish mdi_data (parse_regen_script content) st)
| RunLenError : forall content v,
    json_len v = None ->
    run_exec (Some content) (CacheDecoded v) (exit_corrupt_cache (len_error v))
| RunLookupRaises : forall content v count,
    json_len v = Some count -> build_lookup_json [] (json_iter v) = None ->
    run_exec (Some content) (CacheDecoded v) (crash (loaded_banner count))
| RunUnhashable : forall content v count lookup,
    json_len v = Some count -> build_lookup_json [] (json_iter v) = Some lookup ->
    forallb (fun kv => hashable (snd kv)) lookup = false ->
    run_exec (Some content) (CacheDecoded v) (crash (loaded_banner count))
| RunLoopRaises : forall content v count lookup,
    json_len v = Some count -> build_lookup_json [] (json_iter v) = Some lookup ->
    forallb (fun kv => hashable (snd kv)) lookup = true ->
    existsb (entry_raises lookup) (parse_regen_script content) = true ->
    run_exec (Some content) (CacheDecoded v)
             (crash (loaded_banner count ++ parsing_banner (parse_regen_script content)))
| RunDecoded : forall content v count lookup st,
    json_len v = Some count -> build_lookup_json [] (json_iter v) = Some lookup ->
    forallb (fun kv => hashable (snd kv)) lookup = true ->
    existsb (entry_raises lookup) (parse_regen_script content) = false ->
    loop_star (str_values lookup) (parse_regen_script content, mkLoop 0 []) ([], st) ->
    run_exec (Some content) (CacheDecoded v)
             (finish_with count (str_values lookup) (parse_regen_script content) st).

End Main.

(** Characters that [lower_char] neither produces from nor turns into
    another character. *)
Definition lower_stable (a : ascii) : Prop :=
  forall c, ascii_eqb a (lower_char c) = ascii_eqb a c.

(** A declaration line of the documented shape
    [MDI_ICONS+=<mid>,0x<hex><dq> # <comment>] ([dq] the double quote),
    without its line end. *)
Definition decl_line (mid hex comment : str) : str :=
  s "MDI_ICONS+=" ++ mid ++ s ",0x" ++ hex ++ [dq] ++ s " # " ++ comment.

(** Characters other than the line feed. *)
Definition no_newline (x : str) : bool :=
  forallb (fun ch => negb (ascii_eqb ch nl)) x.

(** Characters other than the line feed and the carriage return. *)
Definition plain_line (x : str) : bool :=
  forallb (fun ch => negb (ascii_eqb ch nl) && negb (ascii_eqb ch "013"%char)) x.

(** Small concrete inputs. *)
Definition account_index : list (str * str) := [(s "F0006", s "account")].

Definition entry_with (comment : str) : Entry :=
  mkEntry 1 (s "F0006") comment (s "MDI_ICONS").

(** [err['line']] of an error record. *)
Definition err_line (err : VError) : nat :=
  match err with
  | Invalid line _ _ _ => line
  | Mismatch line _ _ _ _ => line
  end.

(** The INVALID record of line 123-129 for an entry. *)
Definition invalid_of (e : Entry) : VError :=
  Invalid (e_line e) (e_codepoint e) (e_comment e)
    (s "Codepoint " ++ e_codepoint e ++ s " does not exist in MDI!").

(* ================================================================== *)
(** * Lemmas on the string primitives *)

Module StrFacts.

(** Facts about one character are settled by its 256 values. *)
Ltac by_chars c := destruct c as [[] [] [] [] [] [] [] []]; reflexivity.

Lemma is_ws_lower_char c : is_ws (lower_char c) = is_ws c.
Proof. by_chars c. Qed.

Lemma lower_char_idem c : lower_char (lower_char c) = lower_char c.
Proof. by_chars c. Qed.

Lemma lower_stable_paren : lower_stable "(".
Proof. intro c; by_chars c. Qed.
Lemma lower_stable_space : lower_stable " ".
Proof. intro c; by_chars c. Qed.
Lemma lower_stable_dash : lower_stable "-".
Proof. intro c; by_chars c. Qed.

Lemma ascii_eqb_true a b : ascii_eqb a b = true <-> a = b.
Proof. unfold ascii_eqb. apply Ascii.eqb_eq. Qed.

Lemma str_eqb_true a b : str_eqb a b = true <-> a = b.
Proof.
  revert b. induction a as [|x a IH]; intros [|y b]; simpl;
    try (split; congruence).
  rewrite andb_true_iff, ascii_eqb_true, IH. split.
  - intros [-> ->]; reflexivity.
  - intros H; inversion H; auto.
Qed.

(** *** [lstrip] and [strip] *)

Lemma lstrip_idem x : lstrip (lstrip x) = lstrip x.
Proof.
  induction x as [|c x IH]; simpl; auto.
  destruct (is_ws c) eqn:E; auto. simpl. rewrite E. reflexivity.
Qed.

Lemma lstrip_head x c r : lstrip x = c :: r -> is_ws c = false.
Proof.
  induction x as [|d x IH]; simpl; [discriminate|].
  destruct (is_ws d) eqn:E; auto. intros H; inversion H; subst; auto.
Qed.

Lemma lstrip_noop x :
  (forall c r, x = c :: r -> is_ws c = false) -> lstrip x = x.
Proof.
  destruct x as [|c r]; simpl; auto. intros H. rewrite (H c r eq_refl). auto.
Qed.

Lemma lstrip_suffix x : exists p, x = p ++ lstrip x.
Proof.
  induction x as [|c x [p IH]]; simpl.
  - exists []. reflexivity.
  - destruct (is_ws c).
    + exists (c :: p). simpl. rewrite <- IH. reflexivity.
    + exists []. reflexivity.
Qed.

Lemma strip_infix x : exists l r, x = l ++ strip x ++ r.
Proof.
  destruct (lstrip_suffix x) as [l Hl].
  destruct (lstrip_suffix (rev (lstrip x))) as [p Hp].
  exists l, (rev p). unfold strip, rstrip.
  rewrite <- rev_app_distr, <- Hp, rev_involutive. exact Hl.
Qed.

Lemma strip_lstrip_fixed x : lstrip (strip x) = strip x.
Proof.
  apply lstrip_noop. intros c r Hc.
  destruct (lstrip_suffix (rev (lstrip x))) as [p Hp].
  assert (Hy : lstrip x = strip x ++ rev p).
  { unfold strip, rstrip. rewrite <- rev_app_distr, <- Hp, rev_involutive.
    reflexivity. }
  rewrite Hc in Hy. simpl in Hy. eapply lstrip_head. exact Hy.
Qed.

Lemma strip_rev_fixed x : lstrip (rev (strip x)) = rev (strip x).
Proof. unfold strip, rstrip. rewrite rev_involutive. apply lstrip_idem. Qed.

Lemma strip_fixed x :
  lstrip x = x -> lstrip (rev x) = rev x -> strip x = x.
Proof.
  intros H1 H2. unfold strip, rstrip. rewrite H1, H2. apply rev_involutive.
Qed.

Lemma strip_idem x : strip (strip x) = strip x.
Proof. apply strip_fixed; [apply strip_lstrip_fixed | apply strip_rev_fixed]. Qed.

(** *** [lower] *)

Lemma lower_idem x : lower (lower x) = lower x.
Proof.
  unfold lower. rewrite map_map.
  apply map_ext. apply lower_char_idem.
Qed.

Lemma lstrip_lower x : lstrip (lower x) = lower (lstrip x).
Proof.
  induction x as [|c x IH]; simpl; auto.
  rewrite is_ws_lower_char. destruct (is_ws c); auto.
Qed.

Lemma strip_lower x : strip (lower x) = lower (strip x).
Proof.
  unfold strip, rstrip, lower.
  rewrite lstrip_lower. unfold lower.
  rewrite <- map_rev, lstrip_lower. unfold lower. rewrite map_rev. reflexivity.
Qed.

Lemma startswith_lower x p :
  Forall lower_stable p -> startswith (lower x) p = startswith x p.
Proof.
  revert x. induction p as [|a p IH]; intros x Hp; destruct x as [|c x]; auto.
  pose proof (Forall_inv Hp) as Ha; pose proof (Forall_inv_tail Hp) as Hp'.
  simpl. rewrite Ha, IH; auto.
Qed.

Lemma contains_lower p x :
  Forall lower_stable p -> contains p (lower x) = contains p x.
Proof.
  intros Hp. induction x as [|c x IH].
  - reflexivity.
  - change (contains p (lower (c :: x)))
      with (startswith (lower (c :: x)) p || contains p (lower x)).
    rewrite IH, startswith_lower by exact Hp. reflexivity.
Qed.

(** *** [contains] and [split_first] *)

Lemma startswith_app x r p :
  startswith x p = true -> startswith (x ++ r) p = true.
Proof.
  revert x. induction p as [|a p IH]; intros x H; destruct x as [|c x];
    simpl in *; auto; try discriminate.
  - destruct r; reflexivity.
  - apply andb_true_iff in H as [H1 H2]. rewrite H1, IH; auto.
Qed.

Lemma contains_app_l p l y :
  contains p (l ++ y) = false -> contains p y = false.
Proof.
  induction l as [|c l IH]; simpl; auto.
  intros H. apply orb_false_iff in H as [_ H]. auto.
Qed.

Lemma contains_app_r p y r :
  contains p (y ++ r) = false -> contains p y = false.
Proof.
  induction y as [|c y IH]; simpl; intros H.
  - destruct p; [destruct r; discriminate | reflexivity].
  - apply orb_false_iff in H as [H1 H2].
    apply orb_false_iff. split; auto.
    destruct (startswith (c :: y) p) eqn:E; auto.
    pose proof (startswith_app (c :: y) r p E) as E2. simpl in E2.
    rewrite E2 in H1. discriminate.
Qed.

Lemma contains_infix p l m r :
  contains p (l ++ m ++ r) = false -> contains p m = false.
Proof. intros H. eapply contains_app_r, contains_app_l. exact H. Qed.

Lemma contains_strip p x : contains p x = false -> contains p (strip x) = false.
Proof.
  destruct (strip_infix x) as [l [r Hx]]. rewrite Hx at 1.
  apply contains_infix.
Qed.

Lemma split_first_cons p c x :
  split_first p (c :: x) = if startswith (c :: x) p then [] else c :: split_first p x.
Proof. reflexivity. Qed.

Lemma contains_cons p c x :
  contains p (c :: x) = startswith (c :: x) p || contains p x.
Proof. reflexivity. Qed.

Lemma split_first_prefix p x : exists r, x = split_first p x ++ r.
Proof.
  induction x as [|c x [r IH]].
  - exists []. destruct p; reflexivity.
  - rewrite split_first_cons. destruct (startswith (c :: x) p).
    + exists (c :: x). reflexivity.
    + exists r. simpl. rewrite <- IH. reflexivity.
Qed.

Lemma split_first_no_occurrence p x :
  p <> [] -> contains p (split_first p x) = false.
Proof.
  intros Hp. induction x as [|c x IH].
  - destruct p; [congruence|]. reflexivity.
  - rewrite split_first_cons. destruct (startswith (c :: x) p) eqn:E.
    + destruct p; [congruence|]. reflexivity.
    + rewrite contains_cons, IH, orb_false_r.
      destruct (startswith (c :: split_first p x) p) eqn:E'; auto.
      destruct (split_first_prefix p x) as [r Hr].
      assert (H := startswith_app (c :: split_first p x) r p E').
      change ((c :: split_first p x) ++ r) with (c :: (split_first p x ++ r)) in H.
      rewrite <- Hr in H. congruence.
Qed.

Lemma split_first_absent p x : contains p x = false -> split_first p x = x.
Proof.
  induction x as [|c x IH].
  - destruct p; auto.
  - rewrite contains_cons, split_first_cons. intros H.
    apply orb_false_iff in H as [H1 H2]. rewrite H1, IH; auto.
Qed.

Lemma split_first_spec p x :
  p <> [] ->
  exists r, x = split_first p x ++ r
            /\ contains p (split_first p x) = false
            /\ (r = [] \/ startswith r p = true).
Proof.
  intros Hp.
  exists (skipn (List.length (split_first p x)) x).
  destruct (split_first_prefix p x) as [r Hr].
  assert (Hs : skipn (List.length (split_first p x)) x = r).
  { remember (split_first p x) as a eqn:Ea. clear Ea. subst x.
    induction a as [|c a IHa]; simpl; auto. }
  rewrite Hs. split; [exact Hr|]. split; [apply split_first_no_occurrence; exact Hp|].
  clear Hs. revert r Hr. induction x as [|c x IH]; intros r Hr.
  - left. destruct p; [congruence|]. simpl in Hr. congruence.
  - rewrite split_first_cons in Hr. destruct (startswith (c :: x) p) eqn:E.
    + right. simpl in Hr. subst r. exact E.
    + simpl in Hr. inversion Hr as [Hr']. apply IH. exact Hr'.
Qed.

End StrFacts.

(* ================================================================== *)
(** * The name normalizer *)

Module Normalizer.
Import StrFacts.

Lemma stable_paren : Forall lower_stable (s "(").
Proof. repeat constructor; apply lower_stable_paren. Qed.

Lemma stable_sep : Forall lower_stable (s " - ").
Proof.
  repeat constructor;
    first [apply lower_stable_space | apply lower_stable_dash].
Qed.

(** The output of the normalizer, written without the redundant last
    [strip]. *)
Lemma extract_shape c :
  extract_icon_name_from_comment c
  = lower (strip (split_first (s " - ") (strip (split_first (s "(") c)))).
Proof.
  unfold extract_icon_name_from_comment. rewrite strip_lower, strip_idem.
  reflexivity.
Qed.

Lemma extract_no_paren c :
  contains (s "(") (extract_icon_name_from_comment c) = false.
Proof.
  rewrite extract_shape, contains_lower by exact stable_paren.
  apply contains_strip.
  destruct (split_first_prefix (s " - ") (strip (split_first (s "(") c))) as [r Hr].
  eapply contains_app_r. rewrite <- Hr.
  apply contains_strip, split_first_no_occurrence. discriminate.
Qed.

Lemma extract_no_sep c :
  contains (s " - ") (extract_icon_name_from_comment c) = false.
Proof.
  rewrite extract_shape, contains_lower by exact stable_sep.
  apply contains_strip, split_first_no_occurrence. discriminate.
Qed.

Lemma extract_stripped c :
  strip (extract_icon_name_from_comment c) = extract_icon_name_from_comment c.
Proof. unfold extract_icon_name_from_comment. apply strip_idem. Qed.

Lemma extract_lowered c :
  lower (extract_icon_name_from_comment c) = extract_icon_name_from_comment c.
Proof. rewrite extract_shape. apply lower_idem. Qed.

(** C7: the normalizer is idempotent. *)
Theorem extract_icon_name_idempotent c :
  extract_icon_name_from_comment (extract_icon_name_from_comment c)
  = extract_icon_name_from_comment c.
Proof.
  pose proof (extract_no_paren c) as H1.
  pose proof (extract_no_sep c) as H2.
  pose proof (extract_stripped c) as H3.
  pose proof (extract_lowered c) as H4.
  unfold extract_icon_name_from_comment at 1.
  generalize dependent (extract_icon_name_from_comment c). intros t H1 H2 H3 H4.
  rewrite (split_first_absent _ t H1), H3, (split_first_absent _ t H2), H3, H4.
  exact H3.
Qed.

(** C6 (code bug): the comment of line 84 and the claim cut the name
    before the first " - "; but line 85 trims the part before the
    parenthesis first, so "close - (xmark)" becomes "close -", which holds
    no " - " any more: the source returns "close -" where the documented
    normalizer ([spec_extract_icon_name]) returns "close", and the entry
    is reported as a mismatch against the name "close". *)
Lemma extract_icon_name_claim_counterexample :
  extract_icon_name_from_comment (s "close - (xmark)") = s "close -"
  /\ spec_extract_icon_name (s "close - (xmark)") = s "close"
  /\ extract_icon_name_from_comment (s "close - (xmark)")
     <> spec_extract_icon_name (s "close - (xmark)")
  /\ is_ok (classify [(s "F0006", s "close")] (entry_with (s "close - (xmark)")))
     = false.
Proof.
  vm_compute. split; [reflexivity | split; [reflexivity | split; [discriminate | reflexivity]]].
Qed.

(** Lines 79-89: the normalizer takes the part [u] of the comment before
    the first "(", trims it, takes the part [w] of the trimmed text before
    the first " - ", and returns [w] trimmed and lowercased; it maps
    "arrow-up-down (bidirectional vertical)" to "arrow-up-down" and
    "close (xmark)" to "close". *)
Theorem extract_icon_name_spec :
  (forall c, exists u v w z,
      c = u ++ v /\ contains (s "(") u = false
      /\ (v = [] \/ startswith v (s "(") = true)
      /\ strip u = w ++ z /\ contains (s " - ") w = false
      /\ (z = [] \/ startswith z (s " - ") = true)
      /\ extract_icon_name_from_comment c = lower (strip w))
  /\ extract_icon_name_from_comment (s "arrow-up-down (bidirectional vertical)")
     = s "arrow-up-down"
  /\ extract_icon_name_from_comment (s "close (xmark)") = s "close".
Proof.
  split; [|split; vm_compute; reflexivity].
  intros c.
  destruct (split_first_spec (s "(") c ltac:(discriminate)) as [v [Hv1 [Hv2 Hv3]]].
  set (u := split_first (s "(") c) in *.
  destruct (split_first_spec (s " - ") (strip u) ltac:(discriminate))
    as [z [Hz1 [Hz2 Hz3]]].
  set (w := split_first (s " - ") (strip u)) in *.
  exists u, v, w, z. repeat split; auto.
  rewrite extract_shape. reflexivity.
Qed.

End Normalizer.

(* ================================================================== *)
(** * The codepoint index *)

Module Lookup.
Import StrFacts.

Lemma dict_get_set {V} (d : list (str * V)) k v k' :
  dict_get (dict_set d k v) k' = if str_eqb k' k then Some v else dict_get d k'.
Proof.
  induction d as [|[k0 v0] d IH]; simpl; auto.
  destruct (str_eqb k k0) eqn:E.
  - apply str_eqb_true in E. subst k0. simpl. destruct (str_eqb k' k); reflexivity.
  - simpl. rewrite IH.
    destruct (str_eqb k' k0) eqn:E0, (str_eqb k' k) eqn:E1; auto.
    apply str_eqb_true in E0, E1. subst. rewrite (proj2 (str_eqb_true k0 k0) eq_refl) in E.
    discriminate.
Qed.

Lemma upper_char_idem c : upper_char (upper_char c) = upper_char c.
Proof. by_chars c. Qed.

Lemma upper_idem x : upper (upper x) = upper x.
Proof. unfold upper. rewrite map_map. apply map_ext, upper_char_idem. Qed.

Lemma truthy_upper x : truthy (upper x) = truthy x.
Proof. unfold truthy, upper. rewrite length_map. reflexivity. Qed.

Lemma find_app_single {A} (f : A -> bool) l r :
  find f (l ++ [r]) = match find f l with
                      | Some x => Some x
                      | None => if f r then Some r else None
                      end.
Proof.
  induction l as [|a l IH]; simpl; auto.
  destruct (f a); auto.
Qed.

Lemma lookup_fold data d k :
  dict_get (fold_left lookup_step data d) k
  = match find (fun r => retained r
                         && str_eqb k (upper (get_or_empty (codepoint r))))
               (rev data) with
    | Some r => Some (get_or_empty (name r))
    | None => dict_get d k
    end.
Proof.
  revert d. induction data as [|r data IH]; intros d; simpl; auto.
  rewrite IH, find_app_single.
  destruct (find _ (rev data)); auto.
  unfold lookup_step, retained. rewrite truthy_upper.
  destruct (truthy (get_or_empty (codepoint r)) && truthy (get_or_empty (name r)));
    simpl; auto.
  rewrite dict_get_set. destruct (str_eqb k _); reflexivity.
Qed.

Lemma lookup_skip d r :
  codepoint r = None \/ name r = None -> lookup_step d r = d.
Proof.
  intros [H | H]; unfold lookup_step; rewrite H; simpl;
    [reflexivity | rewrite andb_false_r; reflexivity].
Qed.

Lemma dict_set_keys (P : str -> Prop) (d : list (str * str)) k v :
  Forall (fun kv => P (fst kv)) d -> P k ->
  Forall (fun kv => P (fst kv)) (dict_set d k v).
Proof.
  intros Hd Hk. induction Hd as [|[k0 v0] d H0 Hd IH]; simpl.
  - repeat constructor. exact Hk.
  - destruct (str_eqb k k0); constructor; auto.
Qed.

(** C5: records missing a codepoint or a name add nothing; looking up a key
    gives the name of the last retained record whose upper-cased codepoint
    is that key (so later duplicates win, and the stored name is returned
    as it is); every key of the index is upper-case. *)
Theorem build_codepoint_lookup_spec :
  (forall pre r post,
      codepoint r = None \/ name r = None ->
      build_codepoint_lookup (pre ++ r :: post) = build_codepoint_lookup (pre ++ post))
  /\ (forall data k,
      dict_get (build_codepoint_lookup data) k
      = match find (fun r => retained r
                             && str_eqb k (upper (get_or_empty (codepoint r))))
                   (rev data) with
        | Some r => Some (get_or_empty (name r))
        | None => None
        end)
  /\ (forall data k v, In (k, v) (build_codepoint_lookup data) -> upper k = k).
Proof.
  split; [|split].
  - intros pre r post H. unfold build_codepoint_lookup.
    rewrite !fold_left_app. simpl. rewrite lookup_skip by exact H. reflexivity.
  - intros data k. unfold build_codepoint_lookup. rewrite lookup_fold.
    destruct (find _ _); reflexivity.
  - intros data k v Hin.
    assert (Hall : Forall (fun kv => upper (fst kv) = fst kv)
                          (build_codepoint_lookup data)).
    { clear Hin. unfold build_codepoint_lookup.
      assert (H0 : Forall (fun kv : str * str => upper (fst kv) = fst kv) []) by constructor.
      revert H0. generalize (@nil (str * str)).
      induction data as [|r data IH]; intros d Hd; simpl; auto.
      apply IH. unfold lookup_step.
      match goal with |- context [if ?b then _ else _] => destruct b end; auto.
      apply (dict_set_keys (fun k => upper k = k)); auto. apply upper_idem. }
    rewrite Forall_forall in Hall. apply (Hall (k, v) Hin).
Qed.

End Lookup.

(* ================================================================== *)
(** * The verifier *)

Module Verifier.
Import StrFacts.

Lemma str_eqb_false a b : str_eqb a b = false <-> a <> b.
Proof.
  rewrite <- str_eqb_true. destruct (str_eqb a b); split; congruence.
Qed.

Lemma classify_present idx entry actual :
  dict_get idx (e_codepoint entry) = Some actual ->
  classify idx entry
  = if str_eqb (claimed_normalized entry) actual then VOk
    else if startswith actual (claimed_normalized entry)
            || contains (claimed_normalized entry) actual then VOk
    else VErr (Mismatch (e_line entry) (e_codepoint entry)
                 (extract_icon_name_from_comment (e_comment entry)) actual
                 (e_comment entry)).
Proof. intros H. unfold classify. rewrite H. reflexivity. Qed.

(** C1 (amended): for an entry whose codepoint is in the index, with
    [claimed] the normalizer output with "_" and " " turned into "-":
    equality gives OK; otherwise a prefix or substring of the actual name
    gives OK; otherwise MISMATCH, recording the normalizer output (before
    the hyphen folding) as the claimed name and the index value as the
    actual name. *)
Theorem classify_present_rules idx entry actual :
  dict_get idx (e_codepoint entry) = Some actual ->
  (claimed_normalized entry = actual -> classify idx entry = VOk)
  /\ (claimed_normalized entry <> actual ->
      startswith actual (claimed_normalized entry) = true
      \/ contains (claimed_normalized entry) actual = true ->
      classify idx entry = VOk)
  /\ (claimed_normalized entry <> actual ->
      startswith actual (claimed_normalized entry) = false ->
      contains (claimed_normalized entry) actual = false ->
      classify idx entry
      = VErr (Mismatch (e_line entry) (e_codepoint entry)
                (extract_icon_name_from_comment (e_comment entry)) actual
                (e_comment entry))).
Proof.
  intros H. rewrite (classify_present idx entry actual H).
  split; [|split].
  - intros E. apply str_eqb_true in E. rewrite E. reflexivity.
  - intros E [P | P]; apply str_eqb_false in E; rewrite E, P;
      [reflexivity | rewrite orb_true_r; reflexivity].
  - intros E P Q. apply str_eqb_false in E. rewrite E, P, Q. reflexivity.
Qed.

Lemma classify_present_rules_witness :
  dict_get account_index (s "F0006") = Some (s "account")
  /\ classify account_index (entry_with (s "home")) =
     VErr (Mismatch 1 (s "F0006") (s "home") (s "account") (s "home")).
Proof.
  split; [reflexivity|].
  apply (classify_present_rules account_index (entry_with (s "home")) (s "account")
           eq_refl); vm_compute; first [discriminate | reflexivity].
Defined.

(** C1 (counterexample): the MISMATCH result records the normalizer output
    "home screen", not the hyphen-folded name "home-screen" that was
    compared. *)
Lemma classify_records_unfolded_claimed :
  classify account_index (entry_with (s "home screen"))
  = VErr (Mismatch 1 (s "F0006") (s "home screen") (s "account") (s "home screen"))
  /\ claimed_normalized (entry_with (s "home screen")) = s "home-screen"
  /\ s "home screen" <> s "home-screen".
Proof. vm_compute. split; [reflexivity | split; [reflexivity | discriminate]]. Qed.

(** C3: an entry whose codepoint is not in the index is INVALID, whatever
    its comment. *)
Theorem classify_absent_invalid idx entry :
  dict_get idx (e_codepoint entry) = None ->
  classify idx entry
  = VErr (Invalid (e_line entry) (e_codepoint entry) (e_comment entry)
            (s "Codepoint " ++ e_codepoint entry ++ s " does not exist in MDI!")).
Proof. intros H. unfold classify. rewrite H. reflexivity. Qed.

Lemma classify_absent_invalid_witness :
  classify account_index (mkEntry 3 (s "FFFFF") (s "account") [])
  = VErr (Invalid 3 (s "FFFFF") (s "account")
            (s "Codepoint FFFFF does not exist in MDI!")).
Proof. apply (classify_absent_invalid account_index (mkEntry 3 (s "FFFFF") (s "account") [])).
  reflexivity.
Defined.

(** C10: an entry whose codepoint is in the index and whose comment
    normalizes to the empty name is OK. *)
Theorem classify_empty_claim_ok idx entry actual :
  dict_get idx (e_codepoint entry) = Some actual ->
  extract_icon_name_from_comment (e_comment entry) = [] ->
  classify idx entry = VOk.
Proof.
  intros H E. rewrite (classify_present idx entry actual H).
  unfold claimed_normalized. rewrite E.
  destruct actual; reflexivity.
Qed.

Lemma classify_empty_claim_ok_witness :
  extract_icon_name_from_comment (s "(a description only)") = []
  /\ classify account_index (entry_with (s "(a description only)")) = VOk.
Proof.
  split; [vm_compute; reflexivity|].
  apply (classify_empty_claim_ok account_index _ (s "account")); vm_compute; reflexivity.
Defined.

(** The verification loop, summed up. *)
Lemma loop_fold idx es st :
  fold_left (loop_body idx) es st
  = mkLoop (ok_count st + List.length (filter (fun e => is_ok (classify idx e)) es))
           (errors st ++ flat_map (fun e => error_of (classify idx e)) es).
Proof.
  revert st. induction es as [|e es IH]; intros [n errs]; simpl.
  - rewrite Nat.add_0_r, app_nil_r. reflexivity.
  - rewrite IH. unfold loop_body, is_ok, error_of.
    destruct (classify idx e); simpl; f_equal; try lia.
    rewrite <- app_assoc. reflexivity.
Qed.

Lemma count_split {A} (f : A -> bool) (g : A -> list VError) (es : list A) :
  (forall e, List.length (g e) = if f e then 0 else 1) ->
  List.length (filter f es) + List.length (flat_map g es) = List.length es.
Proof.
  intros Hg. induction es as [|e es IH]; simpl; auto.
  rewrite length_app, Hg. destruct (f e); simpl; lia.
Qed.

(** C9: every entry is classified exactly once: the OK count is the number
    of entries classified OK, the errors are the non-OK verdicts in entry
    order, and the two counts add up to the number of entries. *)
Theorem verify_entries_partition idx entries :
  ok_count (verify_entries idx entries)
    = List.length (filter (fun e => is_ok (classify idx e)) entries)
  /\ errors (verify_entries idx entries)
    = flat_map (fun e => error_of (classify idx e)) entries
  /\ ok_count (verify_entries idx entries)
     + List.length (errors (verify_entries idx entries))
    = List.length entries.
Proof.
  unfold verify_entries. rewrite loop_fold. simpl.
  split; [reflexivity | split; [reflexivity|]].
  apply count_split. intros e. unfold is_ok, error_of.
  destruct (classify idx e); reflexivity.
Qed.

Lemma loop_star_final idx c1 c2 :
  loop_star idx c1 c2 -> fst c2 = [] ->
  snd c2 = fold_left (loop_body idx) (fst c1) (snd c1).
Proof.
  induction 1 as [[es st] | c1 c2 c3 Hs _ IH]; simpl; intros E.
  - subst es. reflexivity.
  - rewrite IH by exact E. inversion Hs; subst. reflexivity.
Qed.

Lemma loop_star_complete idx es st :
  loop_star idx (es, st) ([], fold_left (loop_body idx) es st).
Proof.
  revert st. induction es as [|e es IH]; intros st; simpl.
  - apply LRefl.
  - eapply LTrans; [apply LStep | apply IH].
Qed.

(** C8: a run is determined by the two inputs: [main] is a run, and any
    two runs on the same declaration text and metadata end in the same
    loop state (the same classifications), the same output and the same
    exit code. *)
Theorem run_deterministic regen_script mdi_cache_file regen cache :
  run_exec regen_script mdi_cache_file regen cache
           (main regen_script mdi_cache_file regen cache)
  /\ (forall o1 o2,
        run_exec regen_script mdi_cache_file regen cache o1 ->
        run_exec regen_script mdi_cache_file regen cache o2 -> o1 = o2)
  /\ (forall idx es st1 st2,
        loop_star idx (es, mkLoop 0 []) ([], st1) ->
        loop_star idx (es, mkLoop 0 []) ([], st2) -> st1 = st2).
Proof.
  split; [|split].
  - destruct regen as [content|]; [|constructor].
    destruct cache as [|msg|data|v]; try constructor.
    + apply loop_star_complete.
    + cbn [main]. unfold main_decoded.
      destruct (json_len v) as [count|] eqn:L; [|constructor; exact L].
      destruct (build_lookup_json [] (json_iter v)) as [lookup|] eqn:B;
        [|exact (RunLookupRaises _ _ _ _ _ L B)].
      destruct (forallb (fun kv => hashable (snd kv)) lookup) eqn:F;
        [|exact (RunUnhashable _ _ _ _ _ _ L B F)].
      destruct (existsb (entry_raises lookup) (parse_regen_script content)) eqn:X;
        [exact (RunLoopRaises _ _ _ _ _ _ L B F X)|].
      exact (RunDecoded _ _ _ _ _ _ _ L B F X (loop_star_complete _ _ _)).
  - intros o1 o2 H1 H2. inversion H1; subst; inversion H2; subst;
      try reflexivity; try congruence;
      repeat match goal with
      | A : ?x = Some ?a, B : ?x = Some ?b |- _ =>
          rewrite A in B; injection B as B; subst b
      end; try congruence;
      match goal with
      | Ha : loop_star _ _ ([], ?a), Hb : loop_star _ _ ([], ?b) |- _ =>
          apply loop_star_final in Ha; apply loop_star_final in Hb; simpl in *;
          auto; subst; reflexivity
      end.
  - intros idx es st1 st2 H1 H2.
    apply loop_star_final in H1; apply loop_star_final in H2; simpl in *; auto.
    congruence.
Qed.













End Verifier.

(* ================================================================== *)
(** * The regular expression matcher *)

Module Regex.
Import StrFacts.

Lemma try_counts_first {A} (f : nat -> option A) lo m k0 r :
  lo <= k0 -> k0 <= m ->
  (forall j, k0 < j -> j <= m -> f j = None) ->
  f k0 = Some r -> try_counts f lo m = Some r.
Proof.
  intros Hlo Hm Hnone Hk. induction m as [|m IH].
  - assert (k0 = 0) by lia. subst. simpl.
    destruct lo; [rewrite Hk; reflexivity | lia].
  - simpl. destruct (S m <? lo) eqn:E; [apply Nat.ltb_lt in E; lia|].
    destruct (Nat.eq_dec k0 (S m)) as [->|Hne]; [rewrite Hk; reflexivity|].
    rewrite (Hnone (S m)) by lia.
    apply IH; [lia | intros j H1 H2; apply Hnone; lia].
Qed.

Lemma try_counts_top {A} (f : nat -> option A) lo m r :
  lo <= m -> f m = Some r -> try_counts f lo m = Some r.
Proof. intros H1 H2. apply (try_counts_first f lo m m); auto; lia. Qed.

Lemma match_atom k lo hi tail x o caps :
  match_items (Atom k lo hi :: tail) x o caps
  = try_counts (fun j => match_items tail (skipn j x) o caps)
               lo (cap hi (run_length k x)).
Proof. reflexivity. Qed.

(** A quantified atom that takes every character it may. *)
Lemma atom_take k lo hi tail x o caps r :
  lo <= cap hi (run_length k x) ->
  match_items tail (skipn (cap hi (run_length k x)) x) o caps = Some r ->
  match_items (Atom k lo hi :: tail) x o caps = Some r.
Proof. intros H1 H2. rewrite match_atom. apply try_counts_top; auto. Qed.

(** An optional atom facing a character outside its class. *)
Lemma atom_none k hi tail x o caps :
  run_length k x = 0 ->
  match_items (Atom k 0 hi :: tail) x o caps = match_items tail x o caps.
Proof.
  intros H. rewrite match_atom, H. destruct hi; simpl;
    [rewrite Nat.min_0_r|]; simpl; destruct (match_items tail x o caps); auto.
Qed.

Lemma opt_none c tail x o caps :
  run_length (CChar c) x = 0 ->
  match_items (opt c :: tail) x o caps = match_items tail x o caps.
Proof. apply atom_none. Qed.

Lemma match_lit c tail y o caps :
  match_items (lit c :: tail) (c :: y) o caps = match_items tail y o caps.
Proof.
  unfold lit. rewrite match_atom. simpl.
  assert (E : ascii_eqb c c = true) by (apply ascii_eqb_true; reflexivity).
  rewrite E. simpl. destruct (match_items tail y o caps); reflexivity.
Qed.

Lemma match_lit_inv c tail y o caps r :
  match_items (lit c :: tail) y o caps = Some r ->
  exists y', y = c :: y' /\ match_items tail y' o caps = Some r.
Proof.
  unfold lit. rewrite match_atom. destruct y as [|d y]; simpl.
  - discriminate.
  - destruct (ascii_eqb c d) eqn:E; simpl.
    + apply ascii_eqb_true in E. subst d.
      destruct (match_items tail y o caps) eqn:M; intros H; [|discriminate].
      exists y. split; [reflexivity | congruence].
    + discriminate.
Qed.

Lemma match_opt_inv c tail y o caps r :
  match_items (opt c :: tail) y o caps = Some r ->
  match_items tail y o caps = Some r
  \/ exists y', y = c :: y' /\ match_items tail y' o caps = Some r.
Proof.
  unfold opt. rewrite match_atom. destruct y as [|d y]; simpl.
  - left. destruct (match_items tail [] o caps); auto.
  - destruct (ascii_eqb c d) eqn:E; simpl.
    + destruct (match_items tail y o caps) eqn:M; intros H.
      * right. apply ascii_eqb_true in E. subst d. exists y. split; congruence.
      * left. destruct (match_items tail (d :: y) o caps); auto.
    + intros H. left. destruct (match_items tail (d :: y) o caps); auto.
Qed.

Lemma match_lits p tail y o caps :
  match_items (map lit p ++ tail) (p ++ y) o caps = match_items tail y o caps.
Proof.
  induction p as [|c p IH]; [reflexivity|].
  change (map lit (c :: p) ++ tail) with (lit c :: (map lit p ++ tail)).
  change ((c :: p) ++ y) with (c :: (p ++ y)).
  rewrite match_lit. apply IH.
Qed.

Lemma match_lits_inv p tail y o caps r :
  match_items (map lit p ++ tail) y o caps = Some r -> startswith y p = true.
Proof.
  revert y. induction p as [|c p IH]; intros y H.
  - destruct y; reflexivity.
  - change (map lit (c :: p) ++ tail) with (lit c :: (map lit p ++ tail)) in H.
    apply match_lit_inv in H as [y' [-> H]].
    simpl. rewrite (proj2 (ascii_eqb_true c c) eq_refl). simpl. eapply IH. exact H.
Qed.

Lemma run_length_app k l z :
  forallb (class_matches k) l = true ->
  run_length k (l ++ z) = List.length l + run_length k z.
Proof.
  induction l as [|c l IH]; simpl; auto.
  intros H. apply andb_true_iff in H as [H1 H2]. rewrite H1, IH; auto.
Qed.

Lemma skipn_length_app {A} (l z : list A) : skipn (List.length l) (l ++ z) = z.
Proof. induction l; simpl; auto. Qed.

Lemma firstn_capture {A} (l z : list A) :
  firstn (List.length (l ++ z) - List.length z) (l ++ z) = l.
Proof.
  rewrite length_app, Nat.add_sub. induction l; simpl; f_equal; auto.
Qed.

End Regex.

(* ================================================================== *)
(** * The declaration parser *)

Module Parser.
Import StrFacts Regex.

Lemma match_open tail x o caps :
  match_items (GOpen :: tail) x o caps = match_items tail x x caps.
Proof. reflexivity. Qed.

Lemma match_close g tail l z o caps :
  o = l ++ z ->
  match_items (GClose g :: tail) z o caps
  = match_items tail z o (caps ++ [(g, l)]).
Proof. intros ->. simpl. rewrite firstn_capture. reflexivity. Qed.

Lemma run_any_term term :
  term = [] \/ term = [nl] -> run_length CAny term = 0.
Proof. intros [-> | ->]; reflexivity. Qed.

(** The part of a line after the hex digits. *)
Lemma match_comment_part c0 c' term o caps :
  is_ws c0 = false -> no_newline (c0 :: c') = true ->
  term = [] \/ term = [nl] ->
  match_items comment_part
    (dq :: " "%char :: "#"%char :: " "%char :: (c0 :: c') ++ term) o caps
  = Some (caps ++ [(2, c0 :: c')]).
Proof.
  intros Hws Hnl Ht. unfold comment_part.
  apply atom_take; [simpl; lia|]. simpl skipn.
  apply atom_take; [simpl; lia|]. simpl skipn.
  rewrite match_lit.
  apply atom_take; [simpl; lia|].
  assert (E : run_length CSpace (" "%char :: c0 :: c' ++ term) = 1).
  { simpl. rewrite Hws. reflexivity. }
  rewrite E. simpl skipn. rewrite match_open.
  change (c0 :: c' ++ term) with ((c0 :: c') ++ term).
  apply atom_take.
  - unfold cap. rewrite run_length_app by exact Hnl. simpl. lia.
  - unfold cap. rewrite run_length_app by exact Hnl.
    rewrite run_any_term by exact Ht. rewrite Nat.add_0_r, skipn_length_app.
    rewrite (match_close 2 [] (c0 :: c') term) by reflexivity. reflexivity.
Qed.

(** The part of a line from the hex codepoint on. *)
Lemma match_codepoint_part h c0 c' term o :
  h <> [] -> forallb is_hex h = true ->
  is_ws c0 = false -> no_newline (c0 :: c') = true ->
  term = [] \/ term = [nl] ->
  match_items codepoint_part
    ("0"%char :: "x"%char :: h ++ dq :: " "%char :: "#"%char :: " "%char
       :: (c0 :: c') ++ term) o []
  = Some [(1, "0"%char :: "x"%char :: h); (2, c0 :: c')].
Proof.
  intros Hh Hhex Hws Hnl Ht. unfold codepoint_part. cbn [app].
  rewrite opt_none by reflexivity.
  rewrite opt_none by reflexivity.
  rewrite match_open, match_lit, match_lit.
  set (z := dq :: " "%char :: "#"%char :: " "%char :: c0 :: c' ++ term).
  assert (Hrun : cap None (run_length CHex (h ++ z)) = List.length h).
  { unfold cap. rewrite run_length_app by exact Hhex.
    unfold z. simpl run_length. lia. }
  apply atom_take.
  - rewrite Hrun. destruct h; [congruence | simpl; lia].
  - rewrite Hrun, skipn_length_app.
    rewrite (match_close 1 _ ("0"%char :: "x"%char :: h) z) by reflexivity.
    unfold z. change (c0 :: c' ++ term) with ((c0 :: c') ++ term).
    rewrite match_comment_part by assumption. reflexivity.
Qed.

(** *** Where "0x" can occur *)

Lemma contains_pair_no_b a b l :
  forallb (fun ch => negb (ascii_eqb ch b)) l = true -> contains [a; b] l = false.
Proof.
  induction l as [|c l IH]; [reflexivity|].
  simpl forallb. intros H. apply andb_true_iff in H as [_ H].
  rewrite contains_cons, IH by exact H. rewrite orb_false_r.
  destruct l as [|d l]; simpl; [apply andb_false_r|].
  simpl in H. apply andb_true_iff in H as [Hd _].
  destruct (ascii_eqb b d) eqn:E.
  - apply ascii_eqb_true in E. subst d.
    rewrite (proj2 (ascii_eqb_true b b) eq_refl) in Hd. discriminate.
  - rewrite andb_false_r. reflexivity.
Qed.

Lemma contains_pair_app a b l1 l2 :
  contains [a; b] l1 = false -> contains [a; b] l2 = false ->
  (forall l', l1 <> l' ++ [a]) \/ (forall l'', l2 <> b :: l'') ->
  contains [a; b] (l1 ++ l2) = false.
Proof.
  induction l1 as [|c l1 IH]; intros H1 H2 Hb; [exact H2|].
  rewrite contains_cons in H1. apply orb_false_iff in H1 as [H1a H1b].
  change ((c :: l1) ++ l2) with (c :: (l1 ++ l2)).
  rewrite contains_cons. apply orb_false_iff. split.
  - destruct l1 as [|d l1].
    + simpl. destruct (ascii_eqb a c) eqn:E; [|reflexivity]. simpl.
      apply ascii_eqb_true in E. subst c.
      destruct l2 as [|d l2]; [reflexivity|]. simpl.
      destruct (ascii_eqb b d) eqn:E2; [|reflexivity].
      apply ascii_eqb_true in E2. subst d.
      destruct Hb as [Hb | Hb]; [destruct (Hb []) | destruct (Hb l2)]; reflexivity.
    + simpl in H1a |- *.
      assert (Hn : forall x : str, startswith x [] = true) by (intros [|]; reflexivity).
      rewrite Hn in H1a |- *. exact H1a.
  - apply IH; auto.
    destruct Hb as [Hb | Hb]; [left | right; exact Hb].
    intros l' E. apply (Hb (c :: l')). rewrite E. reflexivity.
Qed.

Lemma contains_skipn p x j :
  contains p x = false -> contains p (skipn j x) = false.
Proof.
  revert x. induction j as [|j IH]; intros x H; [exact H|].
  destruct x as [|c x]; [exact H|]. simpl.
  apply IH. rewrite contains_cons in H. apply orb_false_iff in H as [_ H]. exact H.
Qed.

Lemma contains_cons_true p c x :
  contains p x = true -> contains p (c :: x) = true.
Proof. intros H. rewrite contains_cons, H. apply orb_true_r. Qed.

Lemma hex_not_x ch : is_hex ch && ascii_eqb ch "x" = false.
Proof. by_chars ch. Qed.

Lemma hex_no_x h :
  forallb is_hex h = true -> forallb (fun ch => negb (ascii_eqb ch "x")) h = true.
Proof.
  induction h as [|c h IH]; simpl; auto.
  intros H. apply andb_true_iff in H as [H1 H2].
  pose proof (hex_not_x c) as E. rewrite H1 in E. simpl in E. rewrite E, IH; auto.
Qed.

(** The code part only matches where "0x" occurs. *)
Lemma codepoint_part_needs_0x y o caps r :
  match_items codepoint_part y o caps = Some r -> contains (s "0x") y = true.
Proof.
  unfold codepoint_part. cbn [app]. intros H.
  assert (Hcore : forall y', match_items (GOpen :: lit "0" :: lit "x" :: Atom CHex 1 None
                                          :: GClose 1 :: comment_part) y' o caps = Some r ->
                             contains (s "0x") y' = true).
  { intros y' H'. rewrite match_open in H'.
    apply match_lit_inv in H' as [y1 [-> H']].
    apply match_lit_inv in H' as [y2 [-> _]].
    rewrite contains_cons. destruct y2; reflexivity. }
  apply match_opt_inv in H as [H | [y' [-> H]]];
    [| apply contains_cons_true];
    (apply match_opt_inv in H as [H | [y'' [-> H]]];
     [| apply contains_cons_true]); apply Hcore; exact H.
Qed.

Lemma skipn_app_len {A} (l m : list A) k : skipn (List.length l + k) (l ++ m) = skipn k m.
Proof. induction l; simpl; auto. Qed.

(** No "0x" after the "0" of the codepoint. *)
Lemma no_0x_after h c0 c' term :
  forallb is_hex h = true -> contains (s "0x") (c0 :: c') = false ->
  term = [] \/ term = [nl] ->
  contains (s "0x") ("x"%char :: h ++ dq :: " "%char :: "#"%char :: " "%char
                      :: c0 :: c' ++ term) = false.
Proof.
  intros Hhex Hc Ht. rewrite contains_cons. apply orb_false_iff. split; [reflexivity|].
  replace (h ++ dq :: " "%char :: "#"%char :: " "%char :: c0 :: c' ++ term)
    with ((h ++ [dq; " "%char; "#"%char; " "%char]) ++ ((c0 :: c') ++ term))
    by (rewrite <- app_assoc; reflexivity).
  apply contains_pair_app.
  - apply contains_pair_no_b. rewrite forallb_app, hex_no_x by exact Hhex. reflexivity.
  - destruct Ht as [-> | ->]; [rewrite app_nil_r; exact Hc|].
    apply contains_pair_app; [exact Hc | reflexivity | right; discriminate].
  - left. intros l' E.
    replace (h ++ [dq; " "%char; "#"%char; " "%char])
      with ((h ++ [dq; " "%char; "#"%char]) ++ [" "%char]) in E
      by (rewrite <- app_assoc; reflexivity).
    apply app_inj_tail in E as [_ E]. discriminate.
Qed.

(** [.*] gives back characters until the code part matches, at the "0x"
    following the comma. *)
Lemma match_after_eq mid h c0 c' term o :
  no_newline mid = true -> h <> [] -> forallb is_hex h = true ->
  is_ws c0 = false -> no_newline (c0 :: c') = true ->
  contains (s "0x") (c0 :: c') = false ->
  term = [] \/ term = [nl] ->
  match_items (Atom CAny 0 None :: codepoint_part)
    (mid ++ ","%char :: "0"%char :: "x"%char :: h ++ dq :: " "%char :: "#"%char
       :: " "%char :: c0 :: c' ++ term) o []
  = Some [(1, "0"%char :: "x"%char :: h); (2, c0 :: c')].
Proof.
  intros Hmid Hh Hhex Hws Hnl Hc Ht. rewrite match_atom.
  set (W := "x"%char :: h ++ dq :: " "%char :: "#"%char :: " "%char :: c0 :: c' ++ term).
  apply (try_counts_first _ 0 _ (List.length mid + 1)); [lia | | |].
  - unfold cap. rewrite run_length_app by exact Hmid. simpl run_length. lia.
  - intros j Hj _.
    destruct (match_items codepoint_part _ o []) eqn:M; [|reflexivity].
    apply codepoint_part_needs_0x in M.
    replace j with (List.length mid + S (S (j - List.length mid - 2))) in M by lia.
    rewrite skipn_app_len in M. simpl skipn in M.
    rewrite contains_skipn in M; [discriminate|].
    apply no_0x_after; assumption.
  - rewrite skipn_app_len. simpl skipn.
    change (c0 :: c' ++ term) with ((c0 :: c') ++ term).
    apply match_codepoint_part; assumption.
Qed.

Lemma upper_hex_not_X ch : is_hex ch && ascii_eqb (upper_char ch) "X" = false.
Proof. by_chars ch. Qed.

Lemma upper_hex_no_X h :
  forallb is_hex h = true ->
  forallb (fun ch => negb (ascii_eqb ch "X")) (upper h) = true.
Proof.
  induction h as [|c h IH]; simpl; auto.
  intros H. apply andb_true_iff in H as [H1 H2].
  pose proof (upper_hex_not_X c) as E. rewrite H1 in E. simpl in E. rewrite E, IH; auto.
Qed.

Lemma replace_absent old new x :
  contains old x = false -> replace_aux old new 0 x = x.
Proof.
  induction x as [|c x IH]; [reflexivity|].
  rewrite contains_cons. intros H. apply orb_false_iff in H as [H1 H2].
  change (replace_aux old new 0 (c :: x))
    with (if startswith (c :: x) old
          then new ++ replace_aux old new (pred (List.length old)) x
          else c :: replace_aux old new 0 x).
  rewrite H1, IH; auto.
Qed.

Lemma search_first items x caps :
  match_items items x [] [] = Some caps -> search items x = Some caps.
Proof. intros H. destruct x; simpl; rewrite H; reflexivity. Qed.

(** A line of the documented shape gives one entry. *)
Lemma parse_decl_line n mid h c0 c' term :
  no_newline mid = true -> h <> [] -> forallb is_hex h = true ->
  is_ws c0 = false -> no_newline (c0 :: c') = true ->
  contains (s "0x") (c0 :: c') = false ->
  term = [] \/ term = [nl] ->
  parse_line n (decl_line mid h (c0 :: c') ++ term)
  = [mkEntry n (upper h) (strip (c0 :: c')) (strip (decl_line mid h (c0 :: c') ++ term))].
Proof.
  intros Hmid Hh Hhex Hws Hnl Hc Ht.
  assert (E : match_items mdi_pattern (decl_line mid h (c0 :: c') ++ term) [] []
              = Some [(1, "0"%char :: "x"%char :: h); (2, c0 :: c')]).
  { replace (decl_line mid h (c0 :: c') ++ term)
      with (s "MDI_ICONS" ++ "+"%char :: "="%char :: mid ++ ","%char :: "0"%char
              :: "x"%char :: h ++ dq :: " "%char :: "#"%char :: " "%char
              :: c0 :: c' ++ term)
      by (unfold decl_line; rewrite <- !app_assoc; reflexivity).
    unfold mdi_pattern. rewrite match_lits.
    change ([opt "+"; lit "="; Atom CAny 0 None] ++ codepoint_part)
      with (opt "+" :: lit "=" :: Atom CAny 0 None :: codepoint_part).
    apply atom_take; [simpl; lia|]. simpl skipn. rewrite match_lit.
    apply match_after_eq; assumption. }
  unfold parse_line. rewrite (search_first _ _ _ E).
  change (group [(1, "0"%char :: "x"%char :: h); (2, c0 :: c')] 1)
    with ("0"%char :: "x"%char :: h).
  change (group [(1, "0"%char :: "x"%char :: h); (2, c0 :: c')] 2) with (c0 :: c').
  f_equal. f_equal. unfold replace.
  change (upper ("0"%char :: "x"%char :: h)) with ("0"%char :: "X"%char :: upper h).
  assert (Hu : contains (s "0X") (upper h) = false)
    by (apply contains_pair_no_b, upper_hex_no_X; exact Hhex).
  generalize (upper h) Hu. intros u Hu'.
  destruct u as [|a u']; [reflexivity|].
  change (replace_aux (s "0X") [] 0 ("0"%char :: "X"%char :: a :: u'))
    with (replace_aux (s "0X") [] 0 (a :: u')).
  apply replace_absent. exact Hu'.
Qed.

Lemma search_unfold items x :
  search items x = match match_items items x [] [] with
                   | Some c => Some c
                   | None => match x with [] => None | _ :: x' => search items x' end
                   end.
Proof. destruct x; reflexivity. Qed.

(** Without the label "MDI_ICONS" the pattern matches nowhere. *)
Lemma search_needs_label x :
  contains (s "MDI_ICONS") x = false -> search mdi_pattern x = None.
Proof.
  induction x as [|c x IH]; intros H; rewrite search_unfold;
    destruct (match_items mdi_pattern _ [] []) eqn:M.
  - apply match_lits_inv in M. simpl in M. discriminate M.
  - reflexivity.
  - apply match_lits_inv in M. rewrite contains_cons, M in H. discriminate.
  - apply IH. rewrite contains_cons in H. apply orb_false_iff in H as [_ H]. exact H.
Qed.

Lemma parse_line_shape n l :
  parse_line n l = [] \/ exists e, parse_line n l = [e] /\ e_line e = n.
Proof.
  unfold parse_line. destruct (search mdi_pattern l); [right | left; reflexivity].
  eexists. split; reflexivity.
Qed.

Lemma parse_lines_sorted n ls :
  StronglySorted lt (map e_line (parse_lines n ls))
  /\ Forall (fun m => n <= m) (map e_line (parse_lines n ls)).
Proof.
  revert n. induction ls as [|l ls IH]; intros n; simpl.
  - split; constructor.
  - destruct (IH (S n)) as [IH1 IH2].
    destruct (parse_line_shape n l) as [E | [e [E He]]]; rewrite E; simpl.
    + split; [exact IH1|].
      eapply Forall_impl; [|exact IH2]. simpl. intros m Hm. lia.
    + split.
      * constructor; [exact IH1|]. rewrite He.
        eapply Forall_impl; [|exact IH2]. simpl. intros m Hm. lia.
      * constructor; [lia|]. eapply Forall_impl; [|exact IH2]. simpl. intros m Hm. lia.
Qed.

(** *** Splitting a file into lines *)

Lemma translate_cons c x :
  ascii_eqb c "013"%char = false ->
  translate_newlines (c :: x) = c :: translate_newlines x.
Proof. destruct c as [[] [] [] [] [] [] [] []]; intros H; try reflexivity; discriminate. Qed.

Lemma translate_plain x :
  forallb (fun ch => negb (ascii_eqb ch "013"%char)) x = true ->
  translate_newlines x = x.
Proof.
  induction x as [|c x IH]; [reflexivity|].
  simpl forallb. intros H. apply andb_true_iff in H as [H1 H2].
  apply negb_true_iff in H1. rewrite translate_cons, IH; auto.
Qed.

Lemma file_lines_aux_cons cur c x :
  file_lines_aux cur (c :: x)
  = if ascii_eqb c nl then rev (c :: cur) :: file_lines_aux [] x
    else file_lines_aux (c :: cur) x.
Proof. reflexivity. Qed.

Lemma file_lines_aux_line cur l rest :
  no_newline l = true ->
  file_lines_aux cur (l ++ nl :: rest) = (rev cur ++ l ++ [nl]) :: file_lines_aux [] rest.
Proof.
  revert cur. induction l as [|c l IH]; intros cur H.
  - reflexivity.
  - simpl in H. apply andb_true_iff in H as [H1 H2]. apply negb_true_iff in H1.
    change ((c :: l) ++ nl :: rest) with (c :: (l ++ nl :: rest)).
    rewrite file_lines_aux_cons, H1, IH by exact H2. simpl. rewrite <- app_assoc.
    reflexivity.
Qed.

Lemma plain_no_newline l : plain_line l = true -> no_newline l = true.
Proof.
  induction l as [|c l IH]; simpl; auto.
  intros H. apply andb_true_iff in H as [H1 H2]. apply andb_true_iff in H1 as [H1 _].
  rewrite H1, IH; auto.
Qed.

Lemma plain_no_cr l :
  plain_line l = true -> forallb (fun ch => negb (ascii_eqb ch "013"%char)) l = true.
Proof.
  induction l as [|c l IH]; simpl; auto.
  intros H. apply andb_true_iff in H as [H1 H2]. apply andb_true_iff in H1 as [_ H1].
  rewrite H1, IH; auto.
Qed.

Lemma file_lines_joined ls :
  Forall (fun l => plain_line l = true) ls ->
  file_lines (concat (map (fun l => l ++ [nl]) ls)) = map (fun l => l ++ [nl]) ls.
Proof.
  intros Hls. unfold file_lines. rewrite translate_plain.
  - induction Hls as [|l ls Hl Hls IH]; [reflexivity|].
    simpl. rewrite <- app_assoc. simpl.
    rewrite file_lines_aux_line by (apply plain_no_newline; exact Hl).
    rewrite IH. reflexivity.
  - induction Hls as [|l ls Hl Hls IH]; [reflexivity|].
    simpl. rewrite !forallb_app, plain_no_cr, IH by exact Hl. reflexivity.
Qed.

(** Lines 56-76: only lines containing the label "MDI_ICONS" are
    recognized.  A line [MDI_ICONS+=<mid>,0x<hex><dq> # <comment>] (with or
    without its line feed) whose comment is non-empty, starts with a
    non-blank and contains no "0x" gives exactly one entry: the hex digits
    upper-cased, and the comment trimmed.  A line without "MDI_ICONS"
    gives none; no line gives more than one; a file of such lines is
    parsed line by line, and the entries come in file order. *)
Theorem parse_regen_script_spec :
  (forall content, StronglySorted lt (map e_line (parse_regen_script content)))
  /\ (forall n line, List.length (parse_line n line) <= 1)
  /\ (forall ls, Forall (fun l => plain_line l = true) ls ->
        parse_regen_script (concat (map (fun l => l ++ [nl]) ls))
        = parse_lines 1 (map (fun l => l ++ [nl]) ls))
  /\ (forall n mid h c0 c' term,
        no_newline mid = true -> h <> [] -> forallb is_hex h = true ->
        is_ws c0 = false -> no_newline (c0 :: c') = true ->
        contains (s "0x") (c0 :: c') = false ->
        term = [] \/ term = [nl] ->
        parse_line n (decl_line mid h (c0 :: c') ++ term)
        = [mkEntry n (upper h) (strip (c0 :: c'))
                   (strip (decl_line mid h (c0 :: c') ++ term))])
  /\ (forall n line, contains (s "MDI_ICONS") line = false -> parse_line n line = []).
Proof.
  split; [|split; [|split; [|split]]].
  - intros content. apply parse_lines_sorted.
  - intros n line. destruct (parse_line_shape n line) as [E | [e [E _]]];
      rewrite E; simpl; lia.
  - intros ls Hls. unfold parse_regen_script. rewrite file_lines_joined by exact Hls.
    reflexivity.
  - intros. apply parse_decl_line; assumption.
  - intros n line H. unfold parse_line. rewrite search_needs_label by exact H.
    reflexivity.
Qed.

Lemma parse_regen_script_spec_witness :
  parse_line 7 (decl_line [dq] (s "F0006") (s "account (user)") ++ [nl])
  = [mkEntry 7 (s "F0006") (s "account (user)")
       (strip (decl_line [dq] (s "F0006") (s "account (user)") ++ [nl]))].
Proof.
  apply (proj1 (proj2 (proj2 (proj2 parse_regen_script_spec)))
           7 [dq] (s "F0006") "a"%char (s "ccount (user)") [nl]);
    first [reflexivity | discriminate | right; reflexivity].
Defined.

(** C4 (code bug): the comment of line 60 documents the shape
    [MDI_ICONS+=",0xFxxxx"    # comment], whose codepoint is the one of
    the quoted ",0x..." and whose comment is all the text after the first
    "#".  The documented shape parses so; but the greedy [.*] of line 61
    lets a comment that itself holds "0x<hex> # ..." supply the codepoint
    F0007 and the comment "alias" instead of F0006 and
    "see 0xF0007 # alias". *)
Lemma parse_regen_script_claim_counterexample :
  parse_regen_script (decl_line [dq] (s "F0006") (s "account") ++ [nl])
  = [mkEntry 1 (s "F0006") (s "account") (decl_line [dq] (s "F0006") (s "account"))]
  /\ parse_regen_script (decl_line [dq] (s "F0006") (s "see 0xF0007 # alias") ++ [nl])
     = [mkEntry 1 (s "F0007") (s "alias")
          (decl_line [dq] (s "F0006") (s "see 0xF0007 # alias"))].
Proof. split; vm_compute; reflexivity. Qed.

End Parser.

(* ================================================================== *)
(** * Further properties of the verifier *)

Module Extra.
Import StrFacts Regex.

(** *** Classification *)

Lemma startswith_self x : startswith x x = true.
Proof.
  induction x as [|c x IH]; [reflexivity|]. simpl.
  rewrite (proj2 (ascii_eqb_true c c) eq_refl). exact IH.
Qed.

Lemma contains_self x : contains x x = true.
Proof. destruct x; [reflexivity|]. rewrite contains_cons, startswith_self. reflexivity. Qed.

Lemma startswith_contains a p : startswith a p = true -> contains p a = true.
Proof.
  intros H. destruct a as [|c a]; [destruct p; [reflexivity | discriminate]|].
  rewrite contains_cons, H. reflexivity.
Qed.

Lemma classify_ok_contains idx entry actual :
  dict_get idx (e_codepoint entry) = Some actual ->
  (classify idx entry = VOk <-> contains (claimed_normalized entry) actual = true).
Proof.
  intros H. rewrite (Verifier.classify_present idx entry actual H).
  destruct (str_eqb (claimed_normalized entry) actual) eqn:E1.
  - apply str_eqb_true in E1. rewrite E1, contains_self. split; reflexivity.
  - destruct (startswith actual (claimed_normalized entry)) eqn:E2; simpl.
    + rewrite startswith_contains by exact E2. split; reflexivity.
    + destruct (contains (claimed_normalized entry) actual);
        split; first [reflexivity | discriminate].
Qed.

(** Line 140: the prefix test is subsumed by the substring test (and so is
    the equality of line 138): an entry whose codepoint is in the index is
    OK exactly when its hyphen-folded claimed name occurs in the actual
    name. *)
Theorem classify_ok_iff_substring idx entry actual :
  dict_get idx (e_codepoint entry) = Some actual ->
  (classify idx entry = VOk <-> contains (claimed_normalized entry) actual = true).
Proof. apply classify_ok_contains. Qed.

Lemma classify_ok_iff_substring_witness :
  classify account_index (entry_with (s "count")) = VOk.
Proof.
  apply (proj2 (classify_ok_iff_substring account_index (entry_with (s "count"))
                  (s "account") eq_refl)).
  vm_compute. reflexivity.
Defined.

Lemma startswith_nil x : startswith x [] = true.
Proof. destruct x; reflexivity. Qed.

Lemma contains_single c x : contains [c] x = existsb (ascii_eqb c) x.
Proof.
  induction x as [|d x IH]; [reflexivity|].
  rewrite contains_cons, IH. simpl. rewrite startswith_nil, andb_true_r. reflexivity.
Qed.

Lemma replace1_removes c new x :
  existsb (ascii_eqb c) new = false ->
  existsb (ascii_eqb c) (replace_aux [c] new 0 x) = false.
Proof.
  intros Hn. induction x as [|d x IH]; [reflexivity|].
  simpl. rewrite startswith_nil, andb_true_r.
  destruct (ascii_eqb c d) eqn:E; simpl.
  - rewrite existsb_app, Hn, IH. reflexivity.
  - rewrite E, IH. reflexivity.
Qed.

Lemma replace1_keeps_absent a c new x :
  existsb (ascii_eqb a) x = false -> existsb (ascii_eqb a) new = false ->
  existsb (ascii_eqb a) (replace_aux [c] new 0 x) = false.
Proof.
  intros Hx Hn. induction x as [|d x IH]; [reflexivity|].
  simpl in Hx. apply orb_false_iff in Hx as [Hd Hx].
  simpl. rewrite startswith_nil, andb_true_r.
  destruct (ascii_eqb c d); simpl.
  - rewrite existsb_app, Hn, IH by exact Hx. reflexivity.
  - rewrite Hd, IH by exact Hx. reflexivity.
Qed.

(** Line 136: the name compared with the index never contains an
    underscore or a space. *)
Theorem claimed_normalized_no_underscore_space entry :
  contains (s "_") (claimed_normalized entry) = false
  /\ contains (s " ") (claimed_normalized entry) = false.
Proof.
  unfold claimed_normalized, replace.
  change (s "_") with ["_"%char]. change (s " ") with [" "%char].
  change (s "-") with ["-"%char].
  rewrite !contains_single. split.
  - apply replace1_keeps_absent; [|reflexivity].
    apply replace1_removes. reflexivity.
  - apply replace1_removes. reflexivity.
Qed.

(** Lines 79-89: the normalizer never returns a name with a "(", a " - "
    or surrounding white space. *)
Theorem extract_icon_name_output_shape c :
  contains (s "(") (extract_icon_name_from_comment c) = false
  /\ contains (s " - ") (extract_icon_name_from_comment c) = false
  /\ strip (extract_icon_name_from_comment c) = extract_icon_name_from_comment c.
Proof.
  split; [apply Normalizer.extract_no_paren|].
  split; [apply Normalizer.extract_no_sep|].
  apply Normalizer.extract_stripped.
Qed.

(** *** The reverse lookup [name_to_cp] (line 105) *)

Lemma in_keys_set {V} (d : list (str * V)) k v x :
  In x (map fst (dict_set d k v)) -> x = k \/ In x (map fst d).
Proof.
  induction d as [|[k0 v0] d IH]; simpl.
  - intros [H | []]. left. symmetry. exact H.
  - destruct (str_eqb k k0); simpl; intros [H | H]; auto.
    destruct (IH H); auto.
Qed.

Lemma dict_set_nodup {V} (d : list (str * V)) k v :
  NoDup (map fst d) -> NoDup (map fst (dict_set d k v)).
Proof.
  induction d as [|[k0 v0] d IH]; simpl; intros H.
  - constructor; [intros []|constructor].
  - inversion H as [|? ? Hn Hd]; subst.
    destruct (str_eqb k k0) eqn:E; simpl; constructor; auto.
    intros Hin. apply in_keys_set in Hin as [Hk | Hin]; [|contradiction].
    subst k0. rewrite (proj2 (str_eqb_true k k) eq_refl) in E. discriminate.
Qed.

Lemma dict_get_in {V} (d : list (str * V)) k v :
  dict_get d k = Some v -> In (k, v) d.
Proof.
  induction d as [|[k0 v0] d IH]; simpl; [discriminate|].
  destruct (str_eqb k k0) eqn:E; intros H.
  - apply str_eqb_true in E. subst. left. congruence.
  - right. auto.
Qed.

Lemma nodup_dict_get {V} (d : list (str * V)) k v :
  NoDup (map fst d) -> In (k, v) d -> dict_get d k = Some v.
Proof.
  induction d as [|[k0 v0] d IH]; simpl; [intros _ []|].
  intros Hnd [E | Hin]; inversion Hnd as [|? ? Hn Hd]; subst.
  - inversion E; subst. rewrite (proj2 (str_eqb_true k k) eq_refl). reflexivity.
  - destruct (str_eqb k k0) eqn:E.
    + apply str_eqb_true in E. subst k0.
      exfalso. apply Hn. apply (in_map fst _ _ Hin).
    + auto.
Qed.

Lemma build_nodup data : NoDup (map fst (build_codepoint_lookup data)).
Proof.
  unfold build_codepoint_lookup.
  assert (H0 : NoDup (map fst (@nil (str * str)))) by constructor.
  revert H0. generalize (@nil (str * str)).
  induction data as [|r data IH]; intros d Hd; simpl; auto.
  apply IH. unfold lookup_step.
  destruct (_ && _); auto. apply dict_set_nodup. exact Hd.
Qed.

Lemma reverse_fold (l d : list (str * str)) v :
  dict_get (fold_left (fun d kv => dict_set d (snd kv) (fst kv)) l d) v
  = match find (fun kv => str_eqb v (snd kv)) (rev l) with
    | Some kv => Some (fst kv)
    | None => dict_get d v
    end.
Proof.
  revert d. induction l as [|kv l IH]; intros d; simpl; auto.
  rewrite IH, Lookup.find_app_single.
  destruct (find _ (rev l)); auto.
  rewrite Lookup.dict_get_set. destruct (str_eqb v (snd kv)); reflexivity.
Qed.

(** Lines 105 and 172-175: a name found in [name_to_cp] leads to a
    codepoint that the index maps back to that name, and [name_to_cp]
    knows every name of the index. *)
Theorem reverse_lookup_round_trip data v :
  (forall k, dict_get (reverse_lookup (build_codepoint_lookup data)) v = Some k ->
             dict_get (build_codepoint_lookup data) k = Some v)
  /\ (dict_get (reverse_lookup (build_codepoint_lookup data)) v = None
      <-> forall k, dict_get (build_codepoint_lookup data) k <> Some v).
Proof.
  pose proof (build_nodup data) as Hnd.
  set (L := build_codepoint_lookup data) in *.
  unfold reverse_lookup. rewrite reverse_fold. simpl.
  split.
  - intros k H. destruct (find _ (rev L)) as [[k0 v0]|] eqn:F; [|discriminate].
    inversion H; subst k0. apply find_some in F as [Hin Hv].
    apply str_eqb_true in Hv. simpl in Hv. subst v0.
    apply nodup_dict_get; [exact Hnd|]. apply in_rev. exact Hin.
  - destruct (find _ (rev L)) as [[k0 v0]|] eqn:F; split; intros H.
    + discriminate.
    + apply find_some in F as [Hin Hv].
      apply str_eqb_true in Hv. simpl in Hv. subst v0.
      exfalso. apply (H k0). apply nodup_dict_get; [exact Hnd|].
      apply in_rev. exact Hin.
    + intros k Hk. apply dict_get_in in Hk.
      pose proof (find_none _ _ F (k, v)) as Hf. simpl in Hf.
      rewrite (proj2 (str_eqb_true v v) eq_refl) in Hf.
      discriminate (Hf (proj1 (in_rev _ _) Hk)).
    + reflexivity.
Qed.

(** *** What a successful match yields *)

Lemma try_counts_inv {A} (f : nat -> option A) lo j r :
  try_counts f lo j = Some r -> exists k, lo <= k <= j /\ f k = Some r.
Proof.
  induction j as [|j IH]; simpl; intros H.
  - destruct (0 <? lo) eqn:E; [discriminate|]. apply Nat.ltb_ge in E.
    destruct (f 0) eqn:F; [|discriminate]. exists 0. split; [lia | congruence].
  - destruct (S j <? lo) eqn:E; [discriminate|]. apply Nat.ltb_ge in E.
    destruct (f (S j)) eqn:F.
    + exists (S j). split; [lia | congruence].
    + destruct (IH H) as [k [Hk Hf]]. exists k. split; [lia | exact Hf].
Qed.

Lemma atom_inv k lo hi tail x o caps r :
  match_items (Atom k lo hi :: tail) x o caps = Some r ->
  exists j, lo <= j /\ j <= run_length k x /\ match_items tail (skipn j x) o caps = Some r.
Proof.
  rewrite match_atom. intros H. apply try_counts_inv in H as [j [Hj Hm]].
  exists j. split; [lia|]. split; [|exact Hm].
  unfold cap in Hj. destruct hi; lia.
Qed.

Lemma run_length_le k x : run_length k x <= List.length x.
Proof. induction x as [|c x IH]; simpl; [lia|]. destruct (class_matches k c); simpl; lia. Qed.

Lemma firstn_run k j x :
  j <= run_length k x -> forallb (class_matches k) (firstn j x) = true.
Proof.
  revert j. induction x as [|c x IH]; intros j Hj; destruct j; simpl in *; auto.
  destruct (class_matches k c); simpl in *; [apply IH; lia | lia].
Qed.

Lemma capture_len {A} (p x : list A) j :
  j <= List.length x ->
  firstn (List.length (p ++ x) - List.length (skipn j x)) (p ++ x) = p ++ firstn j x.
Proof.
  intros Hj. rewrite length_app, length_skipn.
  replace (List.length p + List.length x - (List.length x - j)) with (List.length p + j)
    by lia.
  induction p as [|a p IH]; simpl; [reflexivity|]. f_equal. exact IH.
Qed.

Lemma firstn_nonempty {A} (x : list A) j :
  1 <= j -> j <= List.length x -> firstn j x <> [].
Proof. destruct x, j; simpl; intros; try lia; discriminate. Qed.

Lemma match_lits_split p tail y o caps r :
  match_items (map lit p ++ tail) y o caps = Some r ->
  exists y', y = p ++ y' /\ match_items tail y' o caps = Some r.
Proof.
  revert y. induction p as [|c p IH]; intros y H.
  - exists y. split; [reflexivity | exact H].
  - change (map lit (c :: p) ++ tail) with (lit c :: (map lit p ++ tail)) in H.
    apply match_lit_inv in H as [y1 [-> H]].
    destruct (IH y1 H) as [y' [-> H']]. exists y'. split; [reflexivity | exact H'].
Qed.

(** The comment part yields group 2: one or more characters, no line feed. *)
Lemma comment_part_sound u o c1 r :
  match_items comment_part u o [c1] = Some r ->
  exists w, r = [c1; (2, w)] /\ w <> [] /\ no_newline w = true.
Proof.
  unfold comment_part. intros H.
  assert (K : forall u', match_items [Atom CSpace 0 None; lit "#"; Atom CSpace 0 None;
                                       GOpen; Atom CAny 1 None; GClose 2] u' o [c1] = Some r ->
                         exists w, r = [c1; (2, w)] /\ w <> [] /\ no_newline w = true).
  { clear u H. intros u H.
    apply atom_inv in H as [j1 [_ [_ H]]].
    apply match_lit_inv in H as [u2 [_ H]].
    apply atom_inv in H as [j2 [_ [_ H]]].
    rewrite Parser.match_open in H.
    set (v := skipn j2 u2) in H.
    apply atom_inv in H as [j [Hj1 [Hj2 H]]].
    simpl in H. inversion H; subst r.
    pose proof (run_length_le CAny v).
    exists (firstn j v).
    pose proof (capture_len [] v j) as C. simpl in C. rewrite C by lia.
    split; [reflexivity|]. split; [apply firstn_nonempty; lia|].
    apply (firstn_run CAny j v Hj2). }
  apply match_opt_inv in H as [H | [u' [_ H]]]; exact (K _ H).
Qed.

(** The code part yields group 1, "0x" and one or more hex digits, then
    group 2. *)
Lemma codepoint_part_sound z o r :
  match_items codepoint_part z o [] = Some r ->
  exists h w, r = [(1, "0"%char :: "x"%char :: h); (2, w)]
              /\ h <> [] /\ forallb is_hex h = true /\ w <> [] /\ no_newline w = true.
Proof.
  unfold codepoint_part. cbn [app]. intros H.
  assert (K : forall z', match_items (GOpen :: lit "0" :: lit "x" :: Atom CHex 1 None
                                      :: GClose 1 :: comment_part) z' o [] = Some r ->
              exists h w, r = [(1, "0"%char :: "x"%char :: h); (2, w)]
                          /\ h <> [] /\ forallb is_hex h = true /\ w <> []
                          /\ no_newline w = true).
  { clear z H. intros z H. rewrite Parser.match_open in H.
    apply match_lit_inv in H as [z1 [-> H]].
    apply match_lit_inv in H as [z2 [-> H]].
    apply atom_inv in H as [j [Hj1 [Hj2 H]]].
    pose proof (run_length_le CHex z2).
    rewrite (Parser.match_close 1 comment_part ("0"%char :: "x"%char :: firstn j z2))
      in H by (simpl; rewrite firstn_skipn; reflexivity).
    apply comment_part_sound in H as [w [-> [Hw1 Hw2]]].
    exists (firstn j z2), w. split; [reflexivity|].
    split; [apply firstn_nonempty; lia|].
    split; [apply (firstn_run CHex j z2 Hj2)|]. auto. }
  apply match_opt_inv in H as [H | [z' [_ H]]];
    (apply match_opt_inv in H as [H | [z'' [_ H]]]); exact (K _ H).
Qed.

Lemma mdi_pattern_sound y r :
  match_items mdi_pattern y [] [] = Some r ->
  startswith y (s "MDI_ICONS") = true
  /\ exists h w, r = [(1, "0"%char :: "x"%char :: h); (2, w)]
                 /\ h <> [] /\ forallb is_hex h = true /\ w <> [] /\ no_newline w = true.
Proof.
  intros H. split; [eapply match_lits_inv; exact H|].
  unfold mdi_pattern in H. apply match_lits_split in H as [y1 [_ H]].
  change ([opt "+"; lit "="; Atom CAny 0 None] ++ codepoint_part)
    with (opt "+" :: lit "=" :: Atom CAny 0 None :: codepoint_part) in H.
  apply match_opt_inv in H as [H | [y2 [_ H]]];
    apply match_lit_inv in H as [y3 [_ H]];
    apply atom_inv in H as [j [_ [_ H]]];
    apply codepoint_part_sound in H; exact H.
Qed.

Lemma search_inv items x caps :
  search items x = Some caps ->
  exists a y, x = a ++ y /\ match_items items y [] [] = Some caps.
Proof.
  induction x as [|c x IH]; rewrite Parser.search_unfold;
    destruct (match_items items _ [] []) eqn:M; intros H.
  - exists [], []. inversion H; subst. split; [reflexivity | exact M].
  - discriminate.
  - exists [], (c :: x). inversion H; subst. split; [reflexivity | exact M].
  - destruct (IH H) as [a [y [-> My]]]. exists (c :: a), y. split; [reflexivity | exact My].
Qed.

Lemma hex_upper_char c : is_hex c && negb (is_hex (upper_char c)) = false.
Proof. by_chars c. Qed.

Lemma upper_hex h : forallb is_hex h = true -> forallb is_hex (upper h) = true.
Proof.
  induction h as [|c h IH]; simpl; auto.
  intros H. apply andb_true_iff in H as [H1 H2].
  pose proof (hex_upper_char c) as E. rewrite H1 in E. simpl in E.
  apply negb_false_iff in E. rewrite E, IH; auto.
Qed.

(** [match.group(1).upper().replace('0X', '')] on a group "0x<hex>". *)
Lemma codepoint_of_hex h :
  forallb is_hex h = true ->
  replace (s "0X") [] (upper ("0"%char :: "x"%char :: h)) = upper h.
Proof.
  intros Hhex. unfold replace.
  change (upper ("0"%char :: "x"%char :: h)) with ("0"%char :: "X"%char :: upper h).
  assert (Hu : contains (s "0X") (upper h) = false)
    by (apply Parser.contains_pair_no_b, Parser.upper_hex_no_X; exact Hhex).
  generalize (upper h) Hu. intros u Hu'.
  destruct u as [|a u']; [reflexivity|].
  change (replace_aux (s "0X") [] 0 ("0"%char :: "X"%char :: a :: u'))
    with (replace_aux (s "0X") [] 0 (a :: u')).
  apply Parser.replace_absent. exact Hu'.
Qed.

Lemma contains_app_true p a y : contains p y = true -> contains p (a ++ y) = true.
Proof.
  induction a as [|c a IH]; intros H; [exact H|].
  apply Parser.contains_cons_true. auto.
Qed.

Lemma no_newline_strip w : no_newline w = true -> no_newline (strip w) = true.
Proof.
  destruct (strip_infix w) as [l [r Hw]]. unfold no_newline. rewrite Hw at 1.
  rewrite !forallb_app. intros H.
  apply andb_true_iff in H as [_ H]. apply andb_true_iff in H as [H _]. exact H.
Qed.

Lemma parse_line_sound n line e :
  In e (parse_line n line) ->
  e_line e = n /\ e_raw e = strip line /\ contains (s "MDI_ICONS") line = true
  /\ e_codepoint e <> [] /\ forallb is_hex (e_codepoint e) = true
  /\ upper (e_codepoint e) = e_codepoint e
  /\ no_newline (e_comment e) = true /\ strip (e_comment e) = e_comment e.
Proof.
  unfold parse_line. destruct (search mdi_pattern line) as [caps|] eqn:S; [|intros []].
  intros [<- | []].
  apply search_inv in S as [a [y [-> M]]].
  apply mdi_pattern_sound in M as [Hs [h [w [-> [Hh [Hhex [Hw Hnl]]]]]]].
  change (group [(1, "0"%char :: "x"%char :: h); (2, w)] 1)
    with ("0"%char :: "x"%char :: h).
  change (group [(1, "0"%char :: "x"%char :: h); (2, w)] 2) with w.
  cbn [e_line e_raw e_codepoint e_comment]. rewrite codepoint_of_hex by exact Hhex.
  split; [reflexivity|]. split; [reflexivity|].
  split; [apply contains_app_true, startswith_contains; exact Hs|].
  split; [destruct h; [congruence | discriminate]|].
  split; [apply upper_hex; exact Hhex|].
  split; [apply Lookup.upper_idem|].
  split; [apply no_newline_strip; exact Hnl | apply strip_idem].
Qed.

Lemma parse_lines_in n ls e :
  In e (parse_lines n ls) ->
  exists i line, nth_error ls i = Some line /\ In e (parse_line (n + i) line).
Proof.
  revert n. induction ls as [|l ls IH]; intros n H; [destruct H|].
  simpl in H. apply in_app_or in H as [H | H].
  - exists 0, l. rewrite Nat.add_0_r. split; [reflexivity | exact H].
  - destruct (IH (S n) H) as [i [line [Hi He]]].
    exists (S i), line. rewrite <- Nat.add_succ_comm. split; [exact Hi | exact He].
Qed.

(** Lines 65-74: every entry has a non-empty codepoint made of the digits
    0-9 and the upper-case letters A-F only (the "0x" prefix gone), and a
    trimmed comment without a line feed. *)
Theorem parse_regen_script_entry_fields content e :
  In e (parse_regen_script content) ->
  e_codepoint e <> [] /\ forallb is_hex (e_codepoint e) = true
  /\ upper (e_codepoint e) = e_codepoint e
  /\ no_newline (e_comment e) = true /\ strip (e_comment e) = e_comment e.
Proof.
  intros H. apply parse_lines_in in H as [i [line [_ H]]].
  apply parse_line_sound in H. tauto.
Qed.

Lemma parse_regen_script_entry_fields_witness :
  In (mkEntry 1 (s "F0006") (s "account") (decl_line [dq] (s "f0006") (s "account")))
     (parse_regen_script (decl_line [dq] (s "f0006") (s "account") ++ [nl]))
  /\ upper (s "F0006") = s "F0006".
Proof.
  assert (H : In (mkEntry 1 (s "F0006") (s "account") (decl_line [dq] (s "f0006") (s "account")))
                 (parse_regen_script (decl_line [dq] (s "f0006") (s "account") ++ [nl])))
    by (vm_compute; left; reflexivity).
  split; [exact H|].
  exact (proj1 (proj2 (proj2 (parse_regen_script_entry_fields _ _ H)))).
Defined.

(** Lines 64-73: every entry comes from the line its number names (counted
    from 1); that line contains "MDI_ICONS", and the entry's raw text is
    that line trimmed. *)
Theorem parse_regen_script_entry_origin content e :
  In e (parse_regen_script content) ->
  1 <= e_line e
  /\ exists line, nth_error (file_lines content) (e_line e - 1) = Some line
                  /\ e_raw e = strip line /\ contains (s "MDI_ICONS") line = true.
Proof.
  intros H. apply parse_lines_in in H as [i [line [Hi H]]].
  apply parse_line_sound in H as [Hn [Hr [Hc _]]].
  rewrite Hn. split; [lia|]. exists line.
  replace (1 + i - 1) with i by lia. auto.
Qed.

Lemma parse_regen_script_entry_origin_witness :
  In (mkEntry 2 (s "F0006") (s "account") (decl_line [dq] (s "F0006") (s "account")))
     (parse_regen_script ([nl] ++ decl_line [dq] (s "F0006") (s "account") ++ [nl]))
  /\ exists line,
       nth_error (file_lines ([nl] ++ decl_line [dq] (s "F0006") (s "account") ++ [nl])) 1
       = Some line /\ contains (s "MDI_ICONS") line = true.
Proof.
  assert (H : In (mkEntry 2 (s "F0006") (s "account") (decl_line [dq] (s "F0006") (s "account")))
                 (parse_regen_script ([nl] ++ decl_line [dq] (s "F0006") (s "account") ++ [nl])))
    by (vm_compute; left; reflexivity).
  split; [exact H|].
  destruct (parse_regen_script_entry_origin _ _ H) as [_ [line [Hl [_ Hc]]]].
  exists line. split; [exact Hl | exact Hc].
Defined.

(** *** Line ends and files without declarations *)

Lemma translate_cr_cases x :
  exists rest, translate_newlines ("013"%char :: x) = nl :: translate_newlines rest
               /\ (rest = x \/ x = nl :: rest).
Proof.
  destruct x as [|d x]; [exists []; split; [reflexivity | left; reflexivity]|].
  destruct (ascii_eqb d nl) eqn:E.
  - apply ascii_eqb_true in E. subst d. exists x. split; [reflexivity | right; reflexivity].
  - exists (d :: x). split; [|left; reflexivity].
    destruct d as [[] [] [] [] [] [] [] []]; try reflexivity; discriminate E.
Qed.

Lemma plain_head c q : plain_line (c :: q) = true ->
  ascii_eqb c nl = false /\ ascii_eqb c "013"%char = false /\ plain_line q = true.
Proof.
  unfold plain_line. simpl. intros H.
  apply andb_true_iff in H as [H1 H2]. apply andb_true_iff in H1 as [H1 H3].
  apply negb_true_iff in H1, H3. auto.
Qed.

Lemma startswith_translate x q :
  plain_line q = true -> startswith (translate_newlines x) q = true -> startswith x q = true.
Proof.
  revert x. induction q as [|d q IH]; intros x Hq H; [apply startswith_nil|].
  apply plain_head in Hq as [Hd1 [Hd2 Hq]].
  destruct x as [|c x]; [discriminate|].
  destruct (ascii_eqb c "013"%char) eqn:Ec.
  - apply ascii_eqb_true in Ec. subst c.
    destruct (translate_cr_cases x) as [rest [Et _]]. rewrite Et in H.
    change (ascii_eqb d nl && startswith (translate_newlines rest) q = true) in H.
    rewrite Hd1 in H. discriminate.
  - rewrite Parser.translate_cons in H by exact Ec. simpl in H |- *.
    apply andb_true_iff in H as [H1 H2]. rewrite H1, IH; auto.
Qed.

Lemma contains_translate p x :
  plain_line p = true -> contains p (translate_newlines x) = true -> contains p x = true.
Proof.
  intros Hp. remember (List.length x) as n eqn:En.
  revert x En. induction n as [n IH] using lt_wf_ind. intros x En H.
  destruct x as [|c x]; [exact H|].
  destruct (ascii_eqb c "013"%char) eqn:Ec.
  - apply ascii_eqb_true in Ec. subst c.
    destruct (translate_cr_cases x) as [rest [Et Hr]]. rewrite Et, contains_cons in H.
    apply orb_true_iff in H as [H | H].
    + destruct p as [|d p]; [reflexivity|].
      apply plain_head in Hp as [Hd1 _].
      change (ascii_eqb d nl && startswith (translate_newlines rest) p = true) in H.
      rewrite Hd1 in H. discriminate.
    + apply Parser.contains_cons_true.
      assert (Hl : List.length rest < n) by (destruct Hr; subst; simpl; lia).
      pose proof (IH _ Hl rest eq_refl H) as Hrest.
      destruct Hr as [-> | ->]; [exact Hrest | apply Parser.contains_cons_true; exact Hrest].
  - rewrite Parser.translate_cons, contains_cons in H by exact Ec.
    apply orb_true_iff in H as [H | H].
    + apply startswith_contains. apply (startswith_translate (c :: x) p Hp).
      rewrite Parser.translate_cons by exact Ec. exact H.
    + apply Parser.contains_cons_true. apply (IH (List.length x)); auto. subst. simpl. lia.
Qed.

Lemma file_lines_aux_infix cur x l :
  In l (file_lines_aux cur x) -> exists a b, rev cur ++ x = a ++ l ++ b.
Proof.
  revert cur. induction x as [|c x IH]; intros cur H.
  - destruct cur; simpl in H; [destruct H|].
    destruct H as [<- | []]. exists [], []. rewrite !app_nil_r. reflexivity.
  - rewrite Parser.file_lines_aux_cons in H. destruct (ascii_eqb c nl).
    + destruct H as [<- | H].
      * exists [], x. simpl. rewrite <- app_assoc. reflexivity.
      * destruct (IH [] H) as [a [b E]]. simpl in E.
        exists (rev cur ++ [c] ++ a), b. rewrite E, <- !app_assoc. reflexivity.
    + destruct (IH (c :: cur) H) as [a [b E]]. exists a, b. rewrite <- E.
      simpl. rewrite <- app_assoc. reflexivity.
Qed.

Lemma parse_lines_label_free n ls :
  Forall (fun l => contains (s "MDI_ICONS") l = false) ls -> parse_lines n ls = [].
Proof.
  intros H. revert n. induction H as [|l ls Hl _ IH]; intros n; [reflexivity|].
  simpl. unfold parse_line at 1. rewrite Parser.search_needs_label by exact Hl.
  apply IH.
Qed.

Lemma parse_regen_script_label_free content :
  contains (s "MDI_ICONS") content = false -> parse_regen_script content = [].
Proof.
  intros H. apply parse_lines_label_free. apply Forall_forall. intros l Hl.
  apply file_lines_aux_infix in Hl as [a [b E]]. simpl in E.
  destruct (contains (s "MDI_ICONS") (translate_newlines content)) eqn:Ct.
  - apply contains_translate in Ct; [congruence | reflexivity].
  - rewrite E in Ct. eapply contains_infix. exact Ct.
Qed.

(** Lines 56-76 and 117-182: a declaration file that never mentions
    "MDI_ICONS" yields no entry, and with any loaded metadata the run then
    exits with 0; its output ends with the line reporting that all names
    match, followed by the closing rule of 70 "=" characters. *)
Theorem label_free_file_passes content :
  contains (s "MDI_ICONS") content = false ->
  parse_regen_script content = []
  /\ forall regen_script mdi_cache_file data,
       exit_code (main regen_script mdi_cache_file (Some content) (CacheLoaded data)) = 0
       /\ exists pre,
            stdout (main regen_script mdi_cache_file (Some content) (CacheLoaded data))
            = pre ++ print ([nl] ++ s "✓ All icon names match their codepoints!")
                  ++ print rule70.
Proof.
  intros H. pose proof (parse_regen_script_label_free content H) as Hp.
  split; [exact Hp|]. intros rs mc data.
  unfold main. rewrite Hp. unfold finish, finish_with, loaded_banner, parsing_banner, report.
  cbn [verify_entries fold_left errors ok_count exit_code stdout List.length].
  split; [reflexivity|].
  exists ((print (s "Loading MDI metadata from cache...")
           ++ print (s "  Found " ++ show_nat (List.length data) ++ s " icons in MDI library"))
          ++ (print ([nl] ++ s "Parsing " ++ rs ++ s "...")
              ++ print (s "  Found " ++ show_nat 0 ++ s " icon entries" ++ [nl]))
          ++ print rule70 ++ print (s "VERIFICATION RESULTS") ++ print rule70
          ++ print ([nl] ++ s "✓ OK: " ++ show_nat 0 ++ s " icons verified correctly")).
  rewrite <- !app_assoc. reflexivity.
Qed.

Lemma label_free_file_passes_witness :
  exit_code (main [] [] (Some (s "set -e")) (CacheLoaded [])) = 0.
Proof.
  exact (proj1 (proj2 (label_free_file_passes (s "set -e") eq_refl) [] [] [])).
Defined.

(** *** Metadata without usable records *)

Lemma lookup_all_skipped data d :
  Forall (fun r => retained r = false) data -> fold_left lookup_step data d = d.
Proof.
  intros H. revert d. induction H as [|r data Hr _ IH]; intros d; [reflexivity|].
  simpl. rewrite <- IH. f_equal. unfold lookup_step.
  rewrite Lookup.truthy_upper. unfold retained in Hr. rewrite Hr. reflexivity.
Qed.

Lemma verify_empty_index es errs :
  fold_left (loop_body []) es (mkLoop 0 errs) = mkLoop 0 (errs ++ map invalid_of es).
Proof.
  revert errs. induction es as [|e es IH]; intros errs; simpl.
  - rewrite app_nil_r. reflexivity.
  - change (loop_body [] (mkLoop 0 errs) e) with (mkLoop 0 (errs ++ [invalid_of e])).
    rewrite IH, <- app_assoc. reflexivity.
Qed.

(** Lines 45-53 and 117-130: when no metadata record has both a codepoint
    and a name (an empty array, say), the index is empty, every entry is
    INVALID, and the run exits with 1 exactly when the declaration file has
    an entry. *)
Theorem no_usable_metadata_all_invalid data :
  Forall (fun r => retained r = false) data ->
  build_codepoint_lookup data = []
  /\ (forall entries, verify_entries (build_codepoint_lookup data) entries
                      = mkLoop 0 (map invalid_of entries))
  /\ (forall regen_script mdi_cache_file content,
        exit_code (main regen_script mdi_cache_file (Some content) (CacheLoaded data))
        = match parse_regen_script content with [] => 0 | _ :: _ => 1 end).
Proof.
  intros H.
  assert (Hb : build_codepoint_lookup data = [])
    by (unfold build_codepoint_lookup; apply lookup_all_skipped; exact H).
  assert (Hv : forall entries, verify_entries (build_codepoint_lookup data) entries
                               = mkLoop 0 (map invalid_of entries))
    by (intros es; rewrite Hb; unfold verify_entries; apply verify_empty_index).
  split; [exact Hb|]. split; [exact Hv|].
  intros rs mc content. unfold main, finish. cbn [exit_code].
  rewrite Hv. cbn [errors]. destruct (parse_regen_script content); reflexivity.
Qed.

Lemma no_usable_metadata_all_invalid_witness :
  exit_code (main [] [] (Some (decl_line [dq] (s "F0006") (s "account") ++ [nl]))
               (CacheLoaded [mkIcon None (Some (s "account")); mkIcon (Some (s "F0006")) (Some [])]))
  = 1.
Proof.
  assert (H : Forall (fun r => retained r = false)
                [mkIcon None (Some (s "account")); mkIcon (Some (s "F0006")) (Some [])])
    by (repeat constructor).
  destruct (no_usable_metadata_all_invalid _ H) as [_ [_ E]].
  rewrite E. vm_compute. reflexivity.
Defined.

(** *** Line ends *)

Lemma translate_app_plain l y :
  forallb (fun ch => negb (ascii_eqb ch "013"%char)) l = true ->
  translate_newlines (l ++ y) = l ++ translate_newlines y.
Proof.
  induction l as [|c l IH]; [reflexivity|].
  simpl forallb. intros H. apply andb_true_iff in H as [H1 H2].
  apply negb_true_iff in H1. simpl app. rewrite Parser.translate_cons, IH; auto.
Qed.

Lemma translate_lf_joined ls :
  Forall (fun l => plain_line l = true) ls ->
  translate_newlines (concat (map (fun l => l ++ [nl]) ls)) = concat (map (fun l => l ++ [nl]) ls).
Proof.
  induction 1 as [|l ls Hl _ IH]; [reflexivity|].
  cbn [map concat]. rewrite <- app_assoc.
  rewrite translate_app_plain by (apply Parser.plain_no_cr; exact Hl).
  change (translate_newlines ([nl] ++ concat (map (fun l => l ++ [nl]) ls)))
    with (nl :: translate_newlines (concat (map (fun l => l ++ [nl]) ls))).
  rewrite IH. reflexivity.
Qed.

Lemma translate_crlf_joined ls :
  Forall (fun l => plain_line l = true) ls ->
  translate_newlines (concat (map (fun l => l ++ ["013"%char; nl]) ls))
  = concat (map (fun l => l ++ [nl]) ls).
Proof.
  induction 1 as [|l ls Hl _ IH]; [reflexivity|].
  cbn [map concat]. rewrite <- !app_assoc.
  rewrite translate_app_plain by (apply Parser.plain_no_cr; exact Hl).
  change (translate_newlines (["013"%char; nl] ++ concat (map (fun l => l ++ ["013"%char; nl]) ls)))
    with (nl :: translate_newlines (concat (map (fun l => l ++ ["013"%char; nl]) ls))).
  rewrite IH. reflexivity.
Qed.

Lemma cr_joined_head ls r :
  Forall (fun l => plain_line l = true) ls ->
  concat (map (fun l => l ++ ["013"%char]) ls) <> nl :: r.
Proof.
  intros H. destruct H as [|l ls Hl _]; [discriminate|].
  cbn [map concat]. destruct l as [|c l]; [discriminate|].
  apply plain_head in Hl as [Hc _]. simpl. intros E. inversion E; subst c.
  discriminate Hc.
Qed.

Lemma translate_cr_joined ls :
  Forall (fun l => plain_line l = true) ls ->
  translate_newlines (concat (map (fun l => l ++ ["013"%char]) ls))
  = concat (map (fun l => l ++ [nl]) ls).
Proof.
  induction 1 as [|l ls Hl Hls IH]; [reflexivity|].
  cbn [map concat]. rewrite <- !app_assoc.
  rewrite translate_app_plain by (apply Parser.plain_no_cr; exact Hl).
  f_equal. simpl app.
  destruct (translate_cr_cases (concat (map (fun l => l ++ ["013"%char]) ls)))
    as [rest [Et [Hr | Hr]]].
  - rewrite Et, Hr, IH. reflexivity.
  - exfalso. exact (cr_joined_head ls rest Hls Hr).
Qed.

(** Line 63 (a text-mode read): a file whose lines end in "\r\n", or in a
    lone "\r", gives the same entries as the same lines ending in "\n". *)
Theorem line_endings_same_entries ls :
  Forall (fun l => plain_line l = true) ls ->
  parse_regen_script (concat (map (fun l => l ++ ["013"%char; nl]) ls))
  = parse_regen_script (concat (map (fun l => l ++ [nl]) ls))
  /\ parse_regen_script (concat (map (fun l => l ++ ["013"%char]) ls))
     = parse_regen_script (concat (map (fun l => l ++ [nl]) ls)).
Proof.
  intros H. unfold parse_regen_script, file_lines.
  rewrite translate_crlf_joined, translate_cr_joined, translate_lf_joined by exact H.
  split; reflexivity.
Qed.

Lemma line_endings_same_entries_witness :
  parse_regen_script (concat (map (fun l => l ++ ["013"%char; nl])
                                  [s "#!/bin/sh"; decl_line [dq] (s "F0006") (s "account")]))
  = parse_regen_script (concat (map (fun l => l ++ [nl])
                                  [s "#!/bin/sh"; decl_line [dq] (s "F0006") (s "account")])).
Proof.
  apply line_endings_same_entries. repeat constructor.
Defined.

(** *** Errors in file order *)

Lemma error_line_classify idx e v :
  In v (error_of (classify idx e)) -> err_line v = e_line e.
Proof.
  unfold classify. destruct (dict_get idx (e_codepoint e)).
  - repeat match goal with |- context [if ?b then _ else _] => destruct b end;
      simpl; intros H; [destruct H | destruct H | destruct H as [<- | []]; reflexivity].
  - simpl. intros [<- | []]. reflexivity.
Qed.

Lemma errors_lines idx es :
  map err_line (flat_map (fun e => error_of (classify idx e)) es)
  = map e_line (filter (fun e => negb (is_ok (classify idx e))) es).
Proof.
  induction es as [|e es IH]; [reflexivity|]. simpl.
  destruct (classify idx e) eqn:C; simpl; [exact IH|].
  rewrite IH. f_equal. apply (error_line_classify idx e). rewrite C. left. reflexivity.
Qed.

Lemma sorted_filter {A} (f : A -> nat) (g : A -> bool) l :
  StronglySorted lt (map f l) -> StronglySorted lt (map f (filter g l)).
Proof.
  induction l as [|a l IH]; simpl; [auto|]. intros H. inversion H as [|? ? Hs Hf]; subst.
  destruct (g a); simpl; [|auto]. constructor; auto.
  rewrite Forall_forall in Hf |- *. intros x Hx.
  apply in_map_iff in Hx as [y [<- Hy]]. apply filter_In in Hy as [Hy _].
  apply Hf. apply in_map. exact Hy.
Qed.

(** Lines 117-151 and 161: the errors carry the line numbers of the entries
    that are not OK, in file order, so the report lists them by increasing
    line number. *)
Theorem errors_in_file_order idx content :
  map err_line (errors (verify_entries idx (parse_regen_script content)))
  = map e_line (filter (fun e => negb (is_ok (classify idx e))) (parse_regen_script content))
  /\ StronglySorted lt (map err_line (errors (verify_entries idx (parse_regen_script content)))).
Proof.
  unfold verify_entries. rewrite Verifier.loop_fold. cbn [errors app].
  rewrite errors_lines. split; [reflexivity|].
  apply sorted_filter. apply Parser.parse_lines_sorted.
Qed.

(** *** Indentation *)

Lemma ws_not_M c : is_ws c && ascii_eqb "M" c = false.
Proof. by_chars c. Qed.

Lemma search_ws_prefix pre line :
  forallb is_ws pre = true -> search mdi_pattern (pre ++ line) = search mdi_pattern line.
Proof.
  induction pre as [|c pre IH]; intros H; [reflexivity|].
  simpl in H. apply andb_true_iff in H as [Hc H].
  simpl app. rewrite Parser.search_unfold.
  destruct (match_items mdi_pattern (c :: pre ++ line) [] []) eqn:M.
  - apply match_lits_inv in M.
    change (ascii_eqb "M" c && startswith (pre ++ line) (s "DI_ICONS") = true) in M.
    apply andb_true_iff in M as [M _].
    pose proof (ws_not_M c) as E. rewrite Hc, M in E. discriminate.
  - apply IH. exact H.
Qed.

Lemma lstrip_ws_prefix pre line :
  forallb is_ws pre = true -> lstrip (pre ++ line) = lstrip line.
Proof.
  induction pre as [|c pre IH]; intros H; [reflexivity|].
  simpl in H |- *. apply andb_true_iff in H as [Hc H]. rewrite Hc. auto.
Qed.

(** Lines 65-73: white space in front of a declaration changes nothing:
    the indented line gives the same entry, raw text included. *)
Theorem parse_line_indent n pre line :
  forallb is_ws pre = true -> parse_line n (pre ++ line) = parse_line n line.
Proof.
  intros H. unfold parse_line.
  rewrite search_ws_prefix by exact H.
  unfold strip at 2 4. rewrite lstrip_ws_prefix by exact H. reflexivity.
Qed.

Lemma parse_line_indent_witness :
  parse_line 4 (s "    " ++ decl_line [dq] (s "F0006") (s "account"))
  = parse_line 4 (decl_line [dq] (s "F0006") (s "account")).
Proof. apply parse_line_indent. reflexivity. Defined.

(** *** A one-line declaration file, end to end *)

Lemma hex_plain_char c : is_hex c && (ascii_eqb c nl || ascii_eqb c "013"%char) = false.
Proof. by_chars c. Qed.

Lemma hex_plain h : forallb is_hex h = true -> plain_line h = true.
Proof.
  unfold plain_line. induction h as [|c h IH]; simpl; auto.
  intros H. apply andb_true_iff in H as [H1 H2].
  pose proof (hex_plain_char c) as E. rewrite H1 in E. simpl in E.
  apply orb_false_iff in E as [E1 E2]. rewrite E1, E2, IH; auto.
Qed.

Lemma decl_plain mid h c :
  plain_line mid = true -> forallb is_hex h = true -> plain_line c = true ->
  plain_line (decl_line mid h c) = true.
Proof.
  intros Hm Hh Hc. apply hex_plain in Hh. unfold plain_line, decl_line in *.
  rewrite !forallb_app, Hm, Hh, Hc. reflexivity.
Qed.

(** Lines 45-53, 56-76 and 117-182 composed: for a file holding one
    declaration with hex digits [h], the exit code is decided by the last
    metadata record that has a name and whose codepoint equals [h] up to
    letter case: 1 when there is none, otherwise 0 exactly when the
    hyphen-folded name read from the comment occurs in that record's
    name. *)
Theorem single_declaration_run regen_script mdi_cache_file mid h c0 c' data :
  plain_line mid = true -> h <> [] -> forallb is_hex h = true ->
  is_ws c0 = false -> plain_line (c0 :: c') = true -> contains (s "0x") (c0 :: c') = false ->
  exit_code (main regen_script mdi_cache_file
                  (Some (decl_line mid h (c0 :: c') ++ [nl])) (CacheLoaded data))
  = match find (fun r => retained r
                         && str_eqb (upper h) (upper (get_or_empty (codepoint r))))
               (rev data) with
    | None => 1
    | Some r =>
        if contains (replace (s " ") (s "-") (replace (s "_") (s "-")
                       (extract_icon_name_from_comment (strip (c0 :: c')))))
                    (get_or_empty (name r))
        then 0 else 1
    end.
Proof.
  intros Hm Hh Hhex Hws Hc Hx.
  set (d := decl_line mid h (c0 :: c')).
  assert (Hd : plain_line d = true) by (apply decl_plain; auto).
  set (e := mkEntry 1 (upper h) (strip (c0 :: c')) (strip (d ++ [nl]))).
  assert (Hparse : parse_regen_script (d ++ [nl]) = [e]).
  { unfold parse_regen_script.
    pose proof (Parser.file_lines_joined [d] (Forall_cons _ Hd (Forall_nil _))) as J.
    cbn [map concat] in J. rewrite app_nil_r in J. rewrite J. cbn [parse_lines].
    rewrite app_nil_r. unfold d, e.
    apply Parser.parse_decl_line; auto using Parser.plain_no_newline. }
  assert (Hg : dict_get (build_codepoint_lookup data) (e_codepoint e)
               = match find (fun r => retained r
                                      && str_eqb (upper h) (upper (get_or_empty (codepoint r))))
                            (rev data) with
                 | Some r => Some (get_or_empty (name r))
                 | None => None
                 end).
  { unfold build_codepoint_lookup. rewrite Lookup.lookup_fold.
    destruct (find _ _); reflexivity. }
  unfold main, finish. cbn [exit_code]. rewrite Hparse.
  unfold verify_entries. cbn [fold_left]. unfold loop_body.
  destruct (find _ (rev data)) as [r|] eqn:F.
  - pose proof (classify_ok_contains _ e _ Hg) as Hok.
    unfold claimed_normalized in Hok. cbn [e_comment e] in Hok.
    destruct (contains _ (get_or_empty (name r))) eqn:C.
    + rewrite (proj2 Hok eq_refl). reflexivity.
    + destruct (classify _ e) eqn:Cl; [|reflexivity].
      discriminate (proj1 Hok eq_refl).
  - unfold classify at 1. rewrite Hg. reflexivity.
Qed.

Lemma single_declaration_run_witness :
  exit_code (main [] [] (Some (decl_line [dq] (s "F0006") (s "Account (user)") ++ [nl]))
                  (CacheLoaded [mkIcon (Some (s "f0006")) (Some (s "account-box"))]))
  = 0.
Proof.
  change (s "Account (user)") with ("A"%char :: s "ccount (user)").
  rewrite (single_declaration_run [] [] [dq] (s "F0006") "A"%char (s "ccount (user)")
             [mkIcon (Some (s "f0006")) (Some (s "account-box"))])
    by first [reflexivity | discriminate].
  vm_compute. reflexivity.
Defined.

End Extra.
